(** * Shallow embedding of the indexing-and-retrieval core of [sfa]

    The first part follows the TypeScript sources file by file:
    - [EmbeddingUtils]   utils/embeddingUtils.ts
    - [ModelService]     services/modelService.ts
    - [EmbeddingService] services/embeddingService.ts
    - [DatabaseService]  services/databaseService.ts
    - [FileUtils]        utils/fileUtils.ts
    - [FileService]      services/fileService.ts

    The modules [ChunkerRef], [EmbedderRef], [StoreRef], [BatchRef] and
    [ScanRef] define what the statements need beside the code; the
    lemmas and the theorems come last.

    Conventions.  A JavaScript [number] is idealised as a real ([R]);
    array indices and string positions are integers ([Z]), as the source
    compares them with [-1] and with fractional midpoints.  The content of
    a text file is a list of characters ([ascii], code units below 256);
    names, paths, ids and error messages are [string]s.  A promise that
    rejects or a function that throws is a value [Err msg], where [msg] is
    the [message] of the thrown [Error].  The functions of the libraries
    that the sources call (file system, thumbnails, image manipulation,
    [path.extname], [Number.prototype.toString]) are parameters. *)

From Stdlib Require Import List String Ascii ZArith Reals Lia Lra Bool.
From Stdlib Require Import Permutation Sorted DecimalString DecimalZ DecimalPos.
Import ListNotations.

(** ** Results of fallible computations *)

Inductive result (A : Type) : Type :=
| Ok (value : A)
| Err (message : string).

Arguments Ok {A} value.
Arguments Err {A} message.

Definition bind {A B : Type} (r : result A) (k : A -> result B) : result B :=
  match r with
  | Ok a => k a
  | Err m => Err m
  end.

Notation "'let*' x ':=' r 'in' k" := (bind r (fun x => k))
  (at level 10, x name, r at level 100, k at level 200).

Definition isOk {A : Type} (r : result A) : bool :=
  match r with Ok _ => true | Err _ => false end.

(** A computation that acts on a world [W]: it ends with a value or with
    a thrown error, and in both cases leaves a new world behind. *)
Definition M (W A : Type) : Type := W -> result A * W.

Definition ret {W A : Type} (a : A) : M W A := fun w => (Ok a, w).

Definition bindM {W A B : Type} (m : M W A) (k : A -> M W B) : M W B :=
  fun w => match m w with
           | (Ok a, w') => k a w'
           | (Err e, w') => (Err e, w')
           end.

Notation "x <- m ;; k" := (bindM m (fun x => k))
  (at level 61, m at next level, right associativity).

(** [try { m } catch (error) { throw new Error(f(error.message)) }] *)
Definition rethrow {A : Type} (f : string -> string) (r : result A) : result A :=
  match r with
  | Ok a => Ok a
  | Err e => Err (f e)
  end.

Definition rethrowM {W A : Type} (f : string -> string) (m : M W A) : M W A :=
  fun w => let (r, w') := m w in (rethrow f r, w').

(** [error.message || "Unknown error"] *)
Definition orUnknown (message : string) : string :=
  if String.eqb message "" then "Unknown error" else message.

(** [number] and vectors of numbers. *)
Abbreviation number := R (only parsing).
Definition vector := list number.

(** The characters of a text, in order. *)
Definition text := list ascii.

Definition chars (s : string) : text := list_ascii_of_string s.

(* ================================================================== *)
(** * utils/embeddingUtils.ts *)
(* ================================================================== *)

Module EmbeddingUtils.

Local Open Scope Z_scope.

Definition len (t : text) : Z := Z.of_nat (List.length t).

(** [startsWith pat t]: [pat] occurs at the very beginning of [t]. *)
Fixpoint startsWith (pat t : text) : bool :=
  match pat, t with
  | [], _ => true
  | _ :: _, [] => false
  | p :: pat', c :: t' => Ascii.eqb p c && startsWith pat' t'
  end.

(** Downward scan of [String.prototype.lastIndexOf]: the greatest
    position [<= k] at which [pat] occurs in [t], or [-1]. *)
Fixpoint lastIndexFrom (pat t : text) (k : nat) : Z :=
  if startsWith pat (skipn k t) then Z.of_nat k
  else match k with
       | O => -1
       | S k' => lastIndexFrom pat t k'
       end.

(** [t.lastIndexOf(pat, position)]: the scan starts at
    [min(max(position, 0), t.length - pat.length)]. *)
Definition lastIndexOf (t pat : text) (position : Z) : Z :=
  let start := Z.min (Z.max position 0) (len t - len pat) in
  if start <? 0 then -1 else lastIndexFrom pat t (Z.to_nat start).

(** [t.substring(a, b)]: both indices are clamped to [0 .. t.length] and
    swapped when [a > b]. *)
Definition clamp (t : text) (i : Z) : Z := Z.min (Z.max i 0) (len t).

Definition substring (t : text) (a b : Z) : text :=
  let lo := Z.min (clamp t a) (clamp t b) in
  let hi := Z.max (clamp t a) (clamp t b) in
  firstn (Z.to_nat (hi - lo)) (skipn (Z.to_nat lo) t).

(** The test [brk > startIndex && brk > startIndex + maxChunkLength / 2].
    The division is exact in JavaScript; over the integers the second
    comparison is [2 * brk > 2 * startIndex + maxChunkLength]. *)
Definition acceptable (brk startIndex maxChunkLength : Z) : bool :=
  (brk >? startIndex) && (2 * brk >? 2 * startIndex + maxChunkLength).

(** The body of the [while] loop up to [chunks.push]: the value of
    [endIndex] at which the chunk that begins at [startIndex] is cut. *)
Definition cutPoint (t : text) (maxChunkLength startIndex : Z) : Z :=
  let endIndex := startIndex + maxChunkLength in
  if endIndex <? len t then
    let paragraphBreak := lastIndexOf t (chars (String "010" (String "010" ""))) endIndex in
    if acceptable paragraphBreak startIndex maxChunkLength then paragraphBreak + 2
    else
      let newlineBreak := lastIndexOf t (chars (String "010" "")) endIndex in
      if acceptable newlineBreak startIndex maxChunkLength then newlineBreak + 1
      else
        let sentenceBreak :=
          Z.max (Z.max (lastIndexOf t (chars ". ") endIndex)
                       (lastIndexOf t (chars "! ") endIndex))
                (lastIndexOf t (chars "? ") endIndex) in
        if acceptable sentenceBreak startIndex maxChunkLength then sentenceBreak + 2
        else
          let spaceBreak := lastIndexOf t (chars " ") endIndex in
          if acceptable spaceBreak startIndex maxChunkLength then spaceBreak + 1
          else endIndex
  else endIndex.

(** The [while (startIndex < text.length)] loop.  [fuel] bounds the
    number of iterations; [None] means that the loop is still running
    when the fuel is spent. *)
Fixpoint chunkLoop (fuel : nat) (t : text) (maxChunkLength startIndex : Z)
  : option (list text) :=
  if startIndex <? len t then
    match fuel with
    | O => None
    | S fuel' =>
        let endIndex := cutPoint t maxChunkLength startIndex in
        option_map (cons (substring t startIndex endIndex))
                   (chunkLoop fuel' t maxChunkLength endIndex)
    end
  else Some [].

(** [splitTextIntoChunks(text, maxChunkLength)].  With
    [maxChunkLength >= 1] every iteration moves [startIndex] forward by
    at least one character, so [text.length] iterations are all the loop
    can need; with [maxChunkLength <= 0] it never moves forward, and the
    loop does not end. *)
Definition splitTextIntoChunks (t : text) (maxChunkLength : Z)
  : option (list text) :=
  if len t =? 0 then Some []
  else if len t <=? maxChunkLength then Some [t]
  else chunkLoop (List.length t) t maxChunkLength 0.

Definition defaultMaxChunkLength : Z := 2048.

Local Close Scope Z_scope.

Local Open Scope R_scope.

(** [result[i] += embedding[i]] for [i < dimension].  Reading past the
    end of a JavaScript array yields [undefined] and poisons the sum with
    [NaN]; the reals have no such value, so what is proved about ragged
    input is only what is proved for every default. *)
Definition addInto (dimension : nat) (acc embedding : vector) : vector :=
  map (fun i => nth i acc 0 + nth i embedding 0) (seq 0 dimension).

(** [averageEmbeddings(embeddings)] *)
Definition averageEmbeddings (embeddings : list vector) : result vector :=
  match embeddings with
  | [] => Err "No embeddings to average"
  | [e] => Ok e
  | e0 :: _ =>
      let dimension := List.length e0 in
      let sums := fold_left (addInto dimension) embeddings (repeat 0 dimension) in
      Ok (map (fun x => x / INR (List.length embeddings)) sums)
  end.

Section PreprocessImage.

(** The collaborators of [preprocessImage], acting on a world [W]:
    [ImageManipulator.manipulateAsync(imagePath, ...)], which yields the
    [uri] of the resized image, and [FileSystem.deleteAsync(uri, ...)]. *)
Variable W : Type.
Variable manipulateAsync : string -> M W string.
Variable deleteAsync : string -> M W unit.

(** The placeholder tensor: [3 * 224 * 224] entries, all [0.5]. *)
Definition pixelData : list number := repeat 0.5 (3 * 224 * 224).

Definition preprocessImage (imagePath : string) : M W (list number) :=
  rethrowM (fun message => "Failed to preprocess image: " ++ message)%string
    (uri <- manipulateAsync imagePath ;;
     _ <- (if String.prefix "file://" uri then deleteAsync uri else ret tt) ;;
     ret pixelData).

End PreprocessImage.

Arguments preprocessImage {W} manipulateAsync deleteAsync imagePath.

Local Close Scope R_scope.

End EmbeddingUtils.

(* ================================================================== *)
(** * services/modelService.ts *)
(* ================================================================== *)

Module ModelService.

Local Open Scope R_scope.

(** [type Session = { ready: boolean } | null]; [None] is [null]. *)
Definition Session := option bool.

(** The two module-level variables [textSession] and [visionSession]. *)
Record Sessions := { textSession : Session; visionSession : Session }.

Definition EMBEDDING_DIM : nat := 768.

Definition charCode (c : ascii) : number := INR (nat_of_ascii c).

(** [s.charCodeAt(i)]; out of range the source gets [NaN], the model the
    code of the null character. *)
Definition charCodeAt (s : text) (i : nat) : number := charCode (nth i s zero).

(** [input.split("").reduce((acc, char, i) =>
       acc + char.charCodeAt(0) * Math.pow(31, i % 10), 0)],
    from index [i] on.  The sum is the exact one; that of the code is
    rounded once it exceeds [2^53], and then depends on the order of its
    terms. *)
Fixpoint hashFrom (i : nat) (input : text) (acc : number) : number :=
  match input with
  | [] => acc
  | char :: rest => hashFrom (S i) rest (acc + charCode char * 31 ^ (i mod 10))
  end.

(** [v.reduce((sum, val) => sum + val * val, 0)] *)
Definition sumOfSquares (v : vector) : number :=
  fold_left (fun sum val => sum + val * val) v 0.

Definition magnitudeOf (v : vector) : number := sqrt (sumOfSquares v).

(** [.reduce((acc, val, i) => acc + val * (i + 1), 0)], from index [i] on. *)
Fixpoint weightedSumFrom (i : nat) (data : list number) (acc : number) : number :=
  match data with
  | [] => acc
  | val :: rest => weightedSumFrom (S i) rest (acc + val * INR (i + 1))
  end.

Section WithNumberToString.

(** [Number.prototype.toString] is the JavaScript runtime's: the decimal
    rendering of a number, taken as a parameter. *)
Variable numberToString : number -> text.

(** The body of the [for] loop: the value stored in [embedding[i]]. *)
Definition component (hashStr : text) (dimensions i : nat) : number :=
  let seed := charCodeAt hashStr (i mod List.length hashStr) / 255 - 0.5 in
  let position := INR i / INR dimensions in
  seed * sin (position * PI).

Definition generateDeterministicEmbedding (input : text) (dimensions : nat)
  : vector :=
  let hash := hashFrom 0 input 0 in
  let hashStr := numberToString hash in
  let embedding := map (component hashStr dimensions) (seq 0 dimensions) in
  let magnitude := sqrt (sumOfSquares embedding) in
  map (fun val => val / magnitude) embedding.

Definition getTextEmbedding (sessions : Sessions) (t : text) : result vector :=
  match textSession sessions with
  | None => Err "Text model not initialized"
  | Some _ => Ok (generateDeterministicEmbedding t EMBEDDING_DIM)
  end.

(** [imageData.data] is the pixel tensor, as [Array.from] lists it. *)
Definition getVisionEmbedding (sessions : Sessions) (data : list number)
  : result vector :=
  match visionSession sessions with
  | None => Err "Vision model not initialized"
  | Some _ =>
      let imageHash := weightedSumFrom 0 (firstn 20 data) 0 in
      Ok (generateDeterministicEmbedding (numberToString imageHash) EMBEDDING_DIM)
  end.

End WithNumberToString.

Local Close Scope R_scope.

End ModelService.

(* ================================================================== *)
(** * services/embeddingService.ts *)
(* ================================================================== *)

Module EmbeddingService.
Import EmbeddingUtils ModelService.

(** [interface EmbeddingResult { embedding: number[] }].  At run time the
    field can hold [undefined] (an out-of-range array read); that value
    is [None]. *)
Record EmbeddingResult := { embedding : option vector }.

(** The code units that [String.prototype.trim] strips, among the
    characters of the model: tab, line feed, vertical tab, form feed,
    carriage return, space and no-break space. *)
Definition isWhiteSpace (c : ascii) : bool :=
  let n := nat_of_ascii c in
  ((9 <=? n) && (n <=? 13) || (n =? 32) || (n =? 160))%nat.

Fixpoint trimStart (t : text) : text :=
  match t with
  | c :: t' => if isWhiteSpace c then trimStart t' else t
  | [] => []
  end.

Definition trim (t : text) : text := rev (trimStart (rev (trimStart t))).

Section Embedders.

Variable W : Type.
(** [FileSystem.readAsStringAsync(filePath, { encoding: UTF8 })] *)
Variable readAsStringAsync : string -> M W text.
(** [VideoThumbnails.getThumbnailAsync(filePath, { time })], which yields
    [frame.uri]. *)
Variable getThumbnailAsync : string -> Z -> M W string.
Variable manipulateAsync : string -> M W string.
Variable deleteAsync : string -> M W unit.
Variable numberToString : number -> text.
(** The model sessions; no function of this file assigns them. *)
Variable sessions : Sessions.

(** The [for (const chunk of chunks)] loop of [processTextFile]. *)
Fixpoint embedChunks (chunks : list text) (embeddings : list vector)
  : result (list vector) :=
  match chunks with
  | [] => Ok embeddings
  | chunk :: rest =>
      if (0 <? List.length (trim chunk))%nat then
        let* embedding := getTextEmbedding numberToString sessions chunk in
        embedChunks rest (embeddings ++ [embedding])
      else embedChunks rest embeddings
  end.

(** [embeddings.length > 1 ? averageEmbeddings(embeddings) : embeddings[0]] *)
Definition finalTextEmbedding (embeddings : list vector) : result (option vector) :=
  if (1 <? List.length embeddings)%nat then
    let* average := averageEmbeddings embeddings in Ok (Some average)
  else Ok (nth_error embeddings 0).

Definition textFailure (message : string) : string :=
  "Failed to process text file: " ++ orUnknown message.

(** [processTextFile(filePath)].  [None] stands for a run in which the
    chunker does not return. *)
Definition processTextFile (filePath : string) (w : W)
  : option (result EmbeddingResult * W) :=
  match readAsStringAsync filePath w with
  | (Err e, w') => Some (Err (textFailure e), w')
  | (Ok content, w') =>
      match splitTextIntoChunks content defaultMaxChunkLength with
      | None => None
      | Some chunks =>
          Some (rethrow textFailure
                  (let* embeddings := embedChunks chunks [] in
                   let* finalEmbedding := finalTextEmbedding embeddings in
                   Ok {| embedding := finalEmbedding |}),
                w')
      end
  end.

(** [processImageFile(filePath)] *)
Definition processImageFile (filePath : string) : M W EmbeddingResult :=
  rethrowM (fun message =>
    "Failed to process image file: " ++ orUnknown message)%string
    (processedImageData <- preprocessImage manipulateAsync deleteAsync filePath ;;
     fun w =>
       (let* embedding := getVisionEmbedding numberToString sessions processedImageData in
        Ok {| embedding := Some embedding |}, w)).

Definition durationMs : Z := 10000.
Definition frameCount : Z := 10.

(** The body of the inner [try]: thumbnail, preprocessing, embedding of
    frame [i]. *)
Definition frameEmbedding (filePath : string) (i : Z) : M W vector :=
  let time := (durationMs / frameCount * i)%Z in
  frame <- getThumbnailAsync filePath time ;;
  processedFrameData <- preprocessImage manipulateAsync deleteAsync frame ;;
  fun w => (getVisionEmbedding numberToString sessions processedFrameData, w).

(** The [for (let i = 0; i < frameCount; i++)] loop, over the indices
    still to visit; a frame that fails is skipped. *)
Fixpoint frameLoop (filePath : string) (indices : list Z)
  (embeddings : list vector) (w : W) : list vector * W :=
  match indices with
  | [] => (embeddings, w)
  | i :: rest =>
      match frameEmbedding filePath i w with
      | (Ok embedding, w') => frameLoop filePath rest (embeddings ++ [embedding]) w'
      | (Err _, w') => frameLoop filePath rest embeddings w'
      end
  end.

Definition frameIndices : list Z :=
  map Z.of_nat (seq 0 (Z.to_nat frameCount)).

(** [processVideoFile(filePath)] *)
Definition processVideoFile (filePath : string) : M W EmbeddingResult :=
  fun w =>
    let (embeddings, w') := frameLoop filePath frameIndices [] w in
    (rethrow (fun message =>
       "Failed to process video file: " ++ orUnknown message)%string
       (if (List.length embeddings =? 0)%nat
        then Err "No frames could be processed from video."
        else let* finalEmbedding := averageEmbeddings embeddings in
             Ok {| embedding := Some finalEmbedding |}),
     w').

End Embedders.

Arguments processTextFile {W} readAsStringAsync numberToString sessions filePath w.
Arguments processImageFile {W} manipulateAsync deleteAsync numberToString sessions filePath.
Arguments frameEmbedding {W} getThumbnailAsync manipulateAsync deleteAsync
  numberToString sessions filePath i.
Arguments frameLoop {W} getThumbnailAsync manipulateAsync deleteAsync
  numberToString sessions filePath indices embeddings w.
Arguments processVideoFile {W} getThumbnailAsync manipulateAsync deleteAsync
  numberToString sessions filePath.

End EmbeddingService.

(* ================================================================== *)
(** * services/databaseService.ts *)
(* ================================================================== *)

(** ["text" | "image" | "video"], the type [ItemType] of the database
    service and the result type of [determineFileType]. *)
Inductive ItemType := Text | Image | Video.

Module DatabaseService.

Local Open Scope R_scope.

Record ItemDocType := {
  id : string;
  path : string;
  type : ItemType;
  embedding : vector;
  dateAdded : string
}.

(** The module-level variables [database] and [itemsCollection] are
    assigned together: [None] while they are [null], otherwise the
    documents of the [items] collection in the order of their insertion.
    The storage is used without a validation wrapper, so a document is
    accepted whatever the length of its fields. *)
Definition Database := option (list ItemDocType).

Definition initializeDatabase (db : Database) : Database :=
  match db with
  | Some items => Some items
  | None => Some []
  end.

(** What [itemsSchema] says of one document: [id] is a string of at most
    100 characters, [type] one of the three item types, [embedding] an
    array of numbers.  The last two hold of every [ItemDocType]. *)
Definition itemsSchema (data : ItemDocType) : bool :=
  (String.length (id data) <=? 100)%nat.

(** [itemsCollection.findOne({ selector: { id } }).exec()] *)
Definition findOne (wanted : string) (items : list ItemDocType)
  : option ItemDocType :=
  find (fun doc => String.eqb (id doc) wanted) items.

(** The plugins of the persistence engine.  The module adds three of
    them when it is loaded, [addRxPlugin(RxDBQueryBuilderPlugin)],
    [addRxPlugin(RxDBMigrationPlugin)] and
    [addRxPlugin(RxDBLocalDocumentsPlugin)]; the update plugin, to which
    the method [update] of a document belongs, is not among them. *)
Inductive Plugin :=
| QueryBuilderPlugin
| MigrationPlugin
| LocalDocumentsPlugin
| UpdatePlugin.

Definition plugins : list Plugin :=
  [QueryBuilderPlugin; MigrationPlugin; LocalDocumentsPlugin].

Definition isUpdatePlugin (p : Plugin) : bool :=
  match p with UpdatePlugin => true | _ => false end.

(** What [{ $set: { embedding, dateAdded } }] does to the document whose
    primary key is [wanted], when the update plugin carries it out. *)
Definition update (wanted : string) (newEmbedding : vector) (newDate : string)
  (items : list ItemDocType) : list ItemDocType :=
  map (fun doc =>
         if String.eqb (id doc) wanted
         then {| id := id doc; path := path doc; type := type doc;
                 embedding := newEmbedding; dateAdded := newDate |}
         else doc) items.

Section WithEngine.

(** The message of the error that a method of the engine throws when the
    plugin it belongs to was not added; the argument is the key of the
    plugin. *)
Variable pluginMissing : string -> string.

(** [existing.update({ $set: { embedding, dateAdded } })]: the method of
    the update plugin when that plugin was added, and otherwise the
    method that every document has, which throws. *)
Definition updateDocument (wanted : string) (newEmbedding : vector)
  (newDate : string) (items : list ItemDocType) : result (list ItemDocType) :=
  if existsb isUpdatePlugin plugins
  then Ok (update wanted newEmbedding newDate items)
  else Err (pluginMissing "update").

(** [storeEmbedding(data)].  The value returned in the update case is the
    document as it is stored after the update.  An error thrown in the
    [try] block is caught and thrown again behind the prefix of the
    function; the collection is then as it was. *)
Definition storeEmbedding (data : ItemDocType) : M Database ItemDocType :=
  fun db =>
    match db with
    | None => (Err "Database not initialized", db)
    | Some items =>
        match findOne (id data) items with
        | Some existing =>
            match updateDocument (id data) (embedding data) (dateAdded data) items with
            | Ok items' =>
                (Ok {| id := id existing; path := path existing;
                       type := type existing;
                       embedding := embedding data;
                       dateAdded := dateAdded data |},
                 Some items')
            | Err message =>
                (Err ("Failed to store embedding: " ++ message)%string, db)
            end
        | None => (Ok data, Some (items ++ [data]))
        end
    end.

End WithEngine.

(** Modelled from the spec: the Euclidean distance that the vector query
    of the persistence engine computes between the query vector and a
    stored embedding. *)
Definition euclideanDistance (a b : vector) : number :=
  sqrt (fold_left (fun sum '(x, y) => sum + (x - y) * (x - y)) (combine a b) 0).

(** The comparison [x <= y] of two numbers, as a boolean. *)
Definition Rleb (x y : number) : bool := if Rle_dec x y then true else false.

(** One document found, with its [_distance]. *)
Abbreviation Found := (ItemDocType * number)%type (only parsing).

(** Modelled from the spec: the order of the results of the vector query,
    ascending by distance; a document goes before the documents already
    placed that are not closer than it, so that ties stay in insertion
    order. *)
Fixpoint insertByDistance (x : Found) (sorted : list Found) : list Found :=
  match sorted with
  | [] => [x]
  | y :: rest =>
      if Rleb (snd x) (snd y) then x :: sorted
      else y :: insertByDistance x rest
  end.

(** Modelled from the spec: the documents found, closest first. *)
Definition sortByDistance (found : list Found) : list Found :=
  fold_right insertByDistance [] found.

(** Modelled from the spec: the vector query of the persistence engine,
    which the source reaches through
    [find({ selector: { embedding: { $vector: { $euclideanDistance,
    $maxDistance } } }, limit })].  The engine computes the Euclidean
    distance between the query vector and every stored embedding, keeps
    the documents within the maximal distance, orders them by ascending
    distance, ties in insertion order, and truncates to the limit; each
    document it returns carries its distance as [_distance]. *)
Definition vectorFind (items : list ItemDocType) (queryEmbedding : vector)
  (maxDistance : number) (limit : nat) : list Found :=
  let measured :=
    map (fun doc => (doc, euclideanDistance queryEmbedding (embedding doc))) items in
  let within := filter (fun f => Rleb (snd f) maxDistance) measured in
  firstn limit (sortByDistance within).

(** [ItemDocType & { score?: number }] *)
Record Scored := { data : ItemDocType; score : option number }.

(** Modelled from the spec: [doc.get?.("_distance")].  The engine of the
    model always supplies the distance; [None] is the case in which the
    document has none. *)
Definition distanceOf (f : Found) : option number := Some (snd f).

(** The callback of [results.map]. *)
Definition withScore (threshold : number) (f : Found) : Scored :=
  {| data := fst f;
     score := match distanceOf f with
              | Some distance => Some (1 - distance / threshold)
              | None => Some 1
              end |}.

(** [searchByVector(queryEmbedding, limit = 20, threshold = 0.5)] *)
Definition searchByVector (queryEmbedding : vector) (limit : nat)
  (threshold : number) (db : Database) : result (list Scored) :=
  match db with
  | None => Err "Database not initialized"
  | Some items =>
      let results := vectorFind items queryEmbedding threshold limit in
      Ok (map (withScore threshold) results)
  end.

Definition defaultLimit : nat := 20.
Definition defaultThreshold : number := 0.5.

(** [getAllItems()] *)
Definition getAllItems (db : Database) : result (list ItemDocType) :=
  match db with
  | None => Err "Database not initialized"
  | Some items => Ok items
  end.

Local Close Scope R_scope.

End DatabaseService.

(* ================================================================== *)
(** * utils/fileUtils.ts *)
(* ================================================================== *)

Module FileUtils.

Local Open Scope string_scope.

(** [String.prototype.toLowerCase] on the characters of the model: the
    letters [A]-[Z] and the upper-case letters of Latin-1. *)
Definition lowerChar (c : ascii) : ascii :=
  let n := nat_of_ascii c in
  if ((65 <=? n) && (n <=? 90)
      || (192 <=? n) && (n <=? 222) && negb (n =? 215))%nat
  then ascii_of_nat (n + 32) else c.

Fixpoint toLowerCase (s : string) : string :=
  match s with
  | EmptyString => EmptyString
  | String c s' => String (lowerChar c) (toLowerCase s')
  end.

Definition mimeTypes : list (string * string) :=
  [ (".txt", "text/plain");
    (".md", "text/markdown");
    (".rtf", "text/rtf");
    (".jpg", "image/jpeg");
    (".jpeg", "image/jpeg");
    (".png", "image/png");
    (".gif", "image/gif");
    (".webp", "image/webp");
    (".mp4", "video/mp4");
    (".mov", "video/quicktime");
    (".avi", "video/x-msvideo");
    (".mkv", "video/x-matroska") ].

(** [table[key]] on an object literal used as a table. *)
Fixpoint lookup (key : string) (table : list (string * string)) : option string :=
  match table with
  | [] => None
  | (k, v) :: rest => if String.eqb k key then Some v else lookup key rest
  end.

Section WithExtname.

(** [path.extname] of the [path-browserify] package, a parameter. *)
Variable extname : string -> string.

Definition getFileExtension (filename : string) : string := extname filename.

(** [getMimeType(filename)]; [None] is [null]. *)
Definition getMimeType (filename : string) : option string :=
  let ext := toLowerCase (getFileExtension filename) in
  lookup ext mimeTypes.

End WithExtname.

End FileUtils.

(* ================================================================== *)
(** * services/fileService.ts *)
(* ================================================================== *)

Module FileService.
Import FileUtils.

Local Open Scope string_scope.

Record FileObject := {
  uri : string;
  type : option string;
  name : string;
  size : option Z
}.

(** [ProcessResult]: [success] is set when [processFile] returned,
    [error] when it threw. *)
Record ProcessResult := {
  file : FileObject;
  success : option bool;
  error : option string
}.

Definition includes (extensions : list string) (extension : string) : bool :=
  existsb (String.eqb extension) extensions.

(** [s.endsWith(suffix)] *)
Definition endsWith (s suffix : string) : bool :=
  let n := String.length s in
  let k := String.length suffix in
  (k <=? n)%nat && String.eqb (String.substring (n - k) k s) suffix.

Section WithPlatform.

Variable extname : string -> string.
(** [Platform.OS === "ios"] *)
Variable ios : bool.

(** [determineFileType(file)]; [None] is [null]. *)
Definition determineFileType (f : FileObject) : option ItemType :=
  let mimeType :=
    match type f with
    | Some t => if String.eqb t "" then getMimeType extname (name f) else Some t
    | None => getMimeType extname (name f)
    end in
  let byMime :=
    match mimeType with
    | Some m =>
        if String.eqb m "" then None
        else if String.prefix "text/" m then Some Text
        else if String.prefix "image/" m then Some Image
        else if String.prefix "video/" m then Some Video
        else None
    | None => None
    end in
  match byMime with
  | Some t => Some t
  | None =>
      let extension := toLowerCase (getFileExtension extname (name f)) in
      if includes [".txt"; ".md"; ".rtf"] extension then Some Text
      else if includes [".jpg"; ".jpeg"; ".png"; ".gif"; ".webp"] extension
      then Some Image
      else if includes [".mp4"; ".mov"; ".avi"; ".mkv"] extension then Some Video
      else None
  end.

(** ** The file system seen by [scanFolderForFiles]

    What [FileSystem.getInfoAsync] reports of an entry of a directory,
    together with what lies below it. *)
Inductive Node :=
| IsFile (size : option Z)     (** [exists], not a directory *)
| Missing                      (** neither [exists] nor [isDirectory] *)
| InfoFails (message : string) (** [getInfoAsync] rejects *)
| IsDirectory (d : Directory)  (** [isDirectory] *)
(** What [FileSystem.readDirectoryAsync] does on a directory. *)
with Directory :=
| ReadFails (message : string)              (** the promise rejects *)
| Items (entries : list (string * Node)).   (** names, in order *)

(** The variables that the closure [processFolder] captures, the calls of
    the progress callback and the warnings written to the console. *)
Record Scan := {
  supportedFiles : list FileObject;
  fileCount : nat;
  progress : list nat;
  warnings : list string
}.

Definition warn (path : string) (st : Scan) : Scan :=
  {| supportedFiles := supportedFiles st;
     fileCount := fileCount st;
     progress := progress st;
     warnings := warnings st ++ [path] |}.

(** [progressCallback(fileCount)] *)
Definition report (count : nat) (st : Scan) : Scan :=
  {| supportedFiles := supportedFiles st;
     fileCount := fileCount st;
     progress := progress st ++ [count];
     warnings := warnings st |}.

(** The branch [else if (info.exists)] of the loop body. *)
Definition visitFile (progressCallback : bool) (itemPath itemName : string)
  (size : option Z) (st : Scan) : Scan :=
  let mimeType := getMimeType extname itemName in
  let fileObj :=
    {| uri := if ios then "file://" ++ itemPath else itemPath;
       type := mimeType;
       name := itemName;
       size := size |} in
  match determineFileType fileObj with
  | Some _ =>
      let st' :=
        {| supportedFiles := supportedFiles st ++ [fileObj];
           fileCount := S (fileCount st);
           progress := progress st;
           warnings := warnings st |} in
      if progressCallback && (fileCount st' mod 10 =? 0)%nat
      then report (fileCount st') st' else st'
  | None => st
  end.

Definition joinPath (path itemName : string) : string :=
  if endsWith path "/" then path ++ itemName else path ++ "/" ++ itemName.

(** The closure [processFolder].  An exception raised in the [try] block
    ends the loop over the items of this folder and is caught by the
    [catch] of the same call, which writes the warning and returns. *)
Fixpoint processFolder (progressCallback : bool) (path : string)
  (d : Directory) (st : Scan) {struct d} : Scan :=
  match d with
  | ReadFails _ => warn path st
  | Items items =>
      (fix loop (items : list (string * Node)) (st : Scan) {struct items} : Scan :=
         match items with
         | [] => st
         | (itemName, node) :: rest =>
             let itemPath := joinPath path itemName in
             match node with
             | InfoFails _ => warn path st
             | IsDirectory d' =>
                 loop rest (processFolder progressCallback itemPath d' st)
             | IsFile size =>
                 loop rest (visitFile progressCallback itemPath itemName size st)
             | Missing => loop rest st
             end
         end) items st
  end.

Definition emptyScan : Scan :=
  {| supportedFiles := []; fileCount := 0; progress := []; warnings := [] |}.

(** [scanFolderForFiles(folderPath, progressCallback)]: [root] is what the
    file system holds at [folderPath]; [progressCallback] tells whether a
    callback was passed.  The result is the final state of the scan, whose
    [supportedFiles] is the array returned. *)
Definition scanFolderForFiles (folderPath : string) (root : Directory)
  (progressCallback : bool) : Scan :=
  let st := processFolder progressCallback folderPath root emptyScan in
  if progressCallback then report (fileCount st) st else st.

End WithPlatform.

Section ProcessFolderFiles.

(** [processFile] acts on the database, the file system and the model
    sessions; here it is any computation on a world [W]. *)
Variable W : Type.
Variable processFile : FileObject -> M W bool.

(** The local variables of [processFolderFiles] and the calls of the
    progress callback so far. *)
Record Batch := {
  results : list ProcessResult;
  processedCount : nat;
  calls : list (nat * nat)
}.

(** The body of [for (const file of files)]. *)
Definition processOne (progressCallback : bool) (total : nat)
  (f : FileObject) (b : Batch) (w : W) : Batch * W :=
  let (outcome, w') := processFile f w in
  let entry :=
    match outcome with
    | Ok s => {| file := f; success := Some s; error := None |}
    | Err message => {| file := f; success := None; error := Some message |}
    end in
  let count := S (processedCount b) in
  ({| results := results b ++ [entry];
      processedCount := count;
      calls := if progressCallback then calls b ++ [(count, total)] else calls b |},
   w').

Fixpoint processLoop (progressCallback : bool) (total : nat)
  (files : list FileObject) (b : Batch) (w : W) : Batch * W :=
  match files with
  | [] => (b, w)
  | f :: rest =>
      let (b', w') := processOne progressCallback total f b w in
      processLoop progressCallback total rest b' w'
  end.

(** [processFolderFiles(files, progressCallback)] *)
Definition processFolderFiles (files : list FileObject)
  (progressCallback : bool) (w : W) : Batch * W :=
  processLoop progressCallback (List.length files) files
    {| results := []; processedCount := 0; calls := [] |} w.

End ProcessFolderFiles.

Arguments processOne {W} processFile progressCallback total f b w.
Arguments processLoop {W} processFile progressCallback total files b w.
Arguments processFolderFiles {W} processFile files progressCallback w.

(** The characters that the pattern [/[^a-zA-Z0-9]/g] leaves in place. *)
Definition isAlphaNumeric (c : ascii) : bool :=
  let n := nat_of_ascii c in
  ((48 <=? n) && (n <=? 57) || (65 <=? n) && (n <=? 90)
   || (97 <=? n) && (n <=? 122))%nat.

(** [filePath.replace(/[^a-zA-Z0-9]/g, "")] *)
Fixpoint keepAlphaNumeric (s : string) : string :=
  match s with
  | EmptyString => EmptyString
  | String c s' =>
      if isAlphaNumeric c then String c (keepAlphaNumeric s')
      else keepAlphaNumeric s'
  end.

(** [n.toString()] for an integer [n], such as a time value. *)
Definition integerString (n : Z) : string :=
  NilEmpty.string_of_int (Z.to_int n).

(** [generateId(filePath)]; [now] is the value of [new Date().getTime()]
    at the call. *)
Definition generateId (filePath : string) (now : Z) : string :=
  keepAlphaNumeric filePath ++ "_" ++ integerString now.

End FileService.

(* ================================================================== *)
(** * services/searchService.ts *)
(* ================================================================== *)

Module SearchService.
Import ModelService DatabaseService.

Local Open Scope string_scope.

(** [searchFiles(query, limit = 20)]: [searchByVector] is called without
    a threshold and takes its default. *)
Definition searchFiles (numberToString : number -> text) (sessions : Sessions)
  (query : text) (limit : nat) (db : Database) : result (list Scored) :=
  rethrow (fun message => "Failed to search files: " ++ message)
    (let* queryEmbedding := getTextEmbedding numberToString sessions query in
     searchByVector queryEmbedding limit defaultThreshold db).

End SearchService.

(* ================================================================== *)
(** * utils/fileUtils.ts, continued: [getFileInfo] *)
(* ================================================================== *)

Module FileInfoUtils.
Import FileUtils.

Local Open Scope string_scope.

(** What [FileSystem.getInfoAsync] resolves to. *)
Record FileStats := {
  fileExists : bool;
  statSize : option Z;
  modificationTime : option Z
}.

Record FileInfo := {
  name : string;
  path : string;
  size : option Z;
  lastModified : option Z;
  preview : option text;
  duration : option string;
  thumbnail : option string;
  error : option string
}.

(** [content.substring(0, 300) + (content.length > 300 ? "..." : "")] *)
Definition previewOf (content : text) : text :=
  (firstn 300 content
   ++ (if (300 <? List.length content)%nat then chars "..." else []))%list.

Section GetFileInfo.

Variable W : Type.
Variable extname : string -> string.
(** [path.basename] of the [path-browserify] package. *)
Variable basename : string -> string.
Variable getInfoAsync : string -> M W FileStats.
Variable readAsStringAsync : string -> M W text.
Variable getThumbnailAsync : string -> Z -> M W string.

(** The object that the outer [catch] returns. *)
Definition unreadable (filePath : string) : FileInfo :=
  {| name := basename filePath; path := filePath; size := None;
     lastModified := None; preview := None; duration := None;
     thumbnail := None; error := Some "Could not read file information" |}.

(** [getFileInfo(filePath)] *)
Definition getFileInfo (filePath : string) : M W FileInfo :=
  fun w =>
    match getInfoAsync filePath w with
    | (Err _, w1) => (Ok (unreadable filePath), w1)
    | (Ok fileStats, w1) =>
        if negb (fileExists fileStats) then (Ok (unreadable filePath), w1)
        else
          let fileName := basename filePath in
          let fileExt := toLowerCase (getFileExtension extname fileName) in
          let info p t :=
            {| name := fileName; path := filePath; size := statSize fileStats;
               lastModified := modificationTime fileStats; preview := p;
               duration := None; thumbnail := t; error := None |} in
          if existsb (String.eqb fileExt) [".txt"; ".md"; ".rtf"] then
            match readAsStringAsync filePath w1 with
            | (Ok content, w2) => (Ok (info (Some (previewOf content)) None), w2)
            | (Err _, w2) => (Ok (unreadable filePath), w2)
            end
          else if existsb (String.eqb fileExt)
                    [".jpg"; ".jpeg"; ".png"; ".gif"; ".webp"]
          then (Ok (info None None), w1)
          else if existsb (String.eqb fileExt) [".mp4"; ".mov"; ".avi"; ".mkv"]
          then
            match getThumbnailAsync filePath 1000%Z w1 with
            | (Ok uri, w2) => (Ok (info None (Some uri)), w2)
            | (Err _, w2) => (Ok (info None None), w2)
            end
          else (Ok (info None None), w1)
    end.

End GetFileInfo.

Arguments getFileInfo {W} extname basename getInfoAsync readAsStringAsync
  getThumbnailAsync filePath.

End FileInfoUtils.

(* ================================================================== *)
(** * The handlers of the [App] component *)
(* ================================================================== *)

Module App.
Import ModelService EmbeddingService DatabaseService FileService SearchService.

Local Open Scope string_scope.

(** The state of the component that the handlers set, and the alerts
    shown so far ([Alert.alert(title, message)]). *)
Record AppState := {
  isLoading : bool;
  loadingMessage : string;
  results : list Scored;
  processingProgress : option (nat * nat);
  alerts : list (string * string)
}.

Definition setIsLoading (b : bool) (ui : AppState) : AppState :=
  {| isLoading := b; loadingMessage := loadingMessage ui;
     results := results ui;
     processingProgress := processingProgress ui; alerts := alerts ui |}.

Definition setLoadingMessage (m : string) (ui : AppState) : AppState :=
  {| isLoading := isLoading ui; loadingMessage := m;
     results := results ui;
     processingProgress := processingProgress ui; alerts := alerts ui |}.

Definition setResults (rs : list Scored) (ui : AppState) : AppState :=
  {| isLoading := isLoading ui; loadingMessage := loadingMessage ui;
     results := rs;
     processingProgress := processingProgress ui; alerts := alerts ui |}.

Definition setProcessingProgress (p : option (nat * nat)) (ui : AppState)
  : AppState :=
  {| isLoading := isLoading ui; loadingMessage := loadingMessage ui;
     results := results ui;
     processingProgress := p; alerts := alerts ui |}.

Definition alert (title message : string) (ui : AppState) : AppState :=
  {| isLoading := isLoading ui; loadingMessage := loadingMessage ui;
     results := results ui;
     processingProgress := processingProgress ui;
     alerts := (alerts ui ++ [(title, message)])%list |}.

(** A count as a template literal prints it. *)
Definition count (n : nat) : string := NilEmpty.string_of_uint (Nat.to_uint n).

Section Handlers.

Variable W : Type.
Variable processFile : FileObject -> M W bool.

(** The [for] loop of [handleFileSelect], from index [i] on; it ends at
    the first file on which [processFile] throws. *)
Fixpoint selectLoop (total i : nat) (files : list FileObject)
  (ui : AppState) (w : W) : result unit * AppState * W :=
  match files with
  | [] => (Ok tt, ui, w)
  | f :: rest =>
      let ui1 :=
        setProcessingProgress (Some (i + 1, total))
          (setLoadingMessage
             ("Processing file " ++ count (i + 1) ++ "/" ++ count total ++ "...")
             ui) in
      match processFile f w with
      | (Ok _, w') => selectLoop total (S i) rest ui1 w'
      | (Err e, w') => (Err e, ui1, w')
      end
  end.

(** [handleFileSelect(files)] *)
Definition handleFileSelect (files : list FileObject) (ui : AppState) (w : W)
  : AppState * W :=
  match files with
  | [] => (ui, w)
  | _ :: _ =>
      let total := List.length files in
      let ui0 :=
        setProcessingProgress (Some (0, total))
          (setLoadingMessage "Processing files..." (setIsLoading true ui)) in
      let '(outcome, ui1, w1) := selectLoop total 0 files ui0 w in
      let ui2 :=
        match outcome with
        | Ok _ => alert "Success" "Files processed and indexed successfully" ui1
        | Err e => alert "Error" ("Failed to process files: " ++ e) ui1
        end in
      (setProcessingProgress None (setIsLoading false ui2), w1)
  end.

(** The progress callback that [handleFolderScan] passes. *)
Definition folderProgress (ui : AppState) (call : nat * nat) : AppState :=
  let (current, total) := call in
  setProcessingProgress (Some (current, total))
    (setLoadingMessage
       ("Processing file " ++ count current ++ "/" ++ count total ++ "...") ui).

(** [handleFolderScan(files, folderPath)].  [processFile] does not see the
    state of the component, so the calls of the progress callback are
    applied to it after the batch, in their order. *)
Definition handleFolderScan (files : list FileObject) (folderPath : string)
  (ui : AppState) (w : W) : AppState * W :=
  match files with
  | [] => (ui, w)
  | _ :: _ =>
      let total := List.length files in
      let ui0 :=
        setProcessingProgress (Some (0, total))
          (setLoadingMessage
             ("Processing " ++ count total ++ " files from folder...")
             (setIsLoading true ui)) in
      let (batch, w1) := processFolderFiles processFile files true w in
      let ui1 := fold_left folderProgress (calls batch) ui0 in
      let ui2 :=
        alert "Success"
          (count total ++ " files from folder processed and indexed successfully")
          ui1 in
      (setProcessingProgress None (setIsLoading false ui2), w1)
  end.

End Handlers.

Arguments selectLoop {W} processFile total i files ui w.
Arguments handleFileSelect {W} processFile files ui w.
Arguments handleFolderScan {W} processFile files folderPath ui w.

(** [handleSearch(query)] *)
Definition handleSearch (numberToString : number -> text) (sessions : Sessions)
  (db : Database) (query : text) (ui : AppState) : AppState :=
  if (List.length (trim query) =? 0)%nat then setResults [] ui
  else
    let ui0 := setLoadingMessage "Searching..." (setIsLoading true ui) in
    let ui1 :=
      match searchFiles numberToString sessions query 20 db with
      | Ok found => setResults found ui0
      | Err e =>
          setResults [] (alert "Search Failed" ("Error searching files: " ++ e) ui0)
      end in
    setIsLoading false ui1.

End App.

(* ================================================================== *)
(** * Reference definitions

    What the statements speak of and the code does not name: the outcomes of
    the attempts of a loop, the element-wise mean of vectors, the records
    that carry an id, a directory tree without its unreadable
    subdirectories; and the sample inputs of the examples. *)
(* ================================================================== *)

Module ChunkerRef.
Import EmbeddingUtils.

Local Open Scope Z_scope.

(** What the code knows of a candidate break: it is [-1], or it lies at or
    before the position searched from, with room for a separator of [k]
    characters after it. *)
Definition candidate (t : text) (position k brk : Z) : Prop :=
  brk = -1 \/ (0 <= brk <= Z.max position 0 /\ brk + k <= len t).

End ChunkerRef.

Module EmbedderRef.
Import ModelService EmbeddingService.

Local Open Scope R_scope.

(** The sum of the components at index [i]. *)
Definition sumAt (i : nat) (vectors : list vector) : number :=
  fold_right (fun v acc => nth i v 0 + acc) 0 vectors.

(** The element-wise arithmetic mean of vectors that have the dimension of
    the first. *)
Definition elementwiseMean (vectors : list vector) : vector :=
  match vectors with
  | [] => []
  | v0 :: _ =>
      map (fun i => sumAt i vectors / INR (List.length vectors))
          (seq 0 (List.length v0))
  end.

(** The results that did not fail, in order. *)
Fixpoint successes {A : Type} (outcomes : list (result A)) : list A :=
  match outcomes with
  | [] => []
  | Ok a :: rest => a :: successes rest
  | Err _ :: rest => successes rest
  end.

Section Frames.

Variable W : Type.
Variable getThumbnailAsync : string -> Z -> M W string.
Variable manipulateAsync : string -> M W string.
Variable deleteAsync : string -> M W unit.
Variable numberToString : number -> text.
Variable sessions : Sessions.

(** The outcome of the attempt on every frame index in turn, each attempt
    starting in the world that the attempt before it left. *)
Fixpoint frameOutcomes (filePath : string) (indices : list Z) (w : W)
  : list (result vector) * W :=
  match indices with
  | [] => ([], w)
  | i :: rest =>
      let (outcome, w') :=
        frameEmbedding getThumbnailAsync manipulateAsync deleteAsync
          numberToString sessions filePath i w in
      let (others, w'') := frameOutcomes filePath rest w' in
      (outcome :: others, w'')
  end.

End Frames.

Arguments frameOutcomes {W} getThumbnailAsync manipulateAsync deleteAsync
  numberToString sessions filePath indices w.

(** The decimal rendering of the integer part of a number, which is
    what [Number.prototype.toString] gives on the non-negative integers
    below [10^21]. *)
Definition integerToString (x : number) : text :=
  chars (NilEmpty.string_of_uint (Nat.to_uint (Z.to_nat (Int_part x)))).

(** A text file of 2049 characters: 2048 null characters and the letter
    [a].  It is longer than one chunk and has no boundary, so it is cut
    after 2048 characters. *)
Definition longContent : text := (repeat zero 2048 ++ chars "a")%list.

Definition readySessions : Sessions :=
  {| textSession := Some true; visionSession := Some true |}.

(** The collaborators of the video example: no thumbnail can be taken at
    1, 4 and 8 seconds; resizing yields a file that is not removed. *)
Definition sampleThumbnails (filePath : string) (time : Z) : M unit string :=
  fun w =>
    if existsb (Z.eqb time) [1000; 4000; 8000]%Z
    then (Err "no frame", w)
    else (Ok "frame.jpg"%string, w).

Definition sampleManipulate (imagePath : string) : M unit string :=
  fun w => (Ok "resized.jpg"%string, w).

Definition sampleDelete (uri : string) : M unit unit :=
  fun w => (Ok tt, w).

End EmbedderRef.

Module StoreRef.
Import DatabaseService.

Local Open Scope R_scope.

Definition hasId (wanted : string) (doc : ItemDocType) : bool :=
  String.eqb (id doc) wanted.

(** The documents of a database; none while it is not initialised. *)
Definition documents (db : Database) : list ItemDocType :=
  match db with Some items => items | None => [] end.

(** A document with its distance to the query. *)
Definition measure (q : vector) (doc : ItemDocType) : Found :=
  (doc, euclideanDistance q (embedding doc)).

(** The test of the engine: the distance is at most the threshold. *)
Definition within (q : vector) (threshold : number) (doc : ItemDocType) : bool :=
  Rleb (euclideanDistance q (embedding doc)) threshold.

(** The order of the results: by ascending distance. *)
Definition closer (a b : Found) : Prop := snd a <= snd b.

Definition sampleDoc (e : vector) (d : string) : ItemDocType :=
  {| id := "doc_1"; path := "/notes/a.txt"; type := Text;
     embedding := e; dateAdded := d |}.

Definition sampleRecord (name : string) (e : vector) : ItemDocType :=
  {| id := name; path := name; type := Text; embedding := e;
     dateAdded := "2024-01-01" |}.

(** A message of the engine for the examples. *)
Definition missingPlugin (pluginKey : string) : string :=
  ("plugin missing: " ++ pluginKey)%string.

End StoreRef.

Module BatchRef.
Import FileService.

Local Open Scope string_scope.

(** The entry that the loop body pushes for a file, given what
    [processFile] did on it. *)
Definition entryOf (f : FileObject) (outcome : result bool) : ProcessResult :=
  match outcome with
  | Ok s => {| file := f; success := Some s; error := None |}
  | Err message => {| file := f; success := None; error := Some message |}
  end.

Section Outcomes.

Variable W : Type.
Variable processFile : FileObject -> M W bool.

(** What [processFile] does on each file of the sequence in turn, every
    call starting in the world that the call before it left, whether that
    call returned or threw. *)
Fixpoint outcomes (files : list FileObject) (w : W) : list (result bool) * W :=
  match files with
  | [] => ([], w)
  | f :: rest =>
      let (outcome, w') := processFile f w in
      let (others, w'') := outcomes rest w' in
      (outcome :: others, w'')
  end.

End Outcomes.

Arguments outcomes {W} processFile files w.

(** The files and the [processFile] of the example: it throws on
    ["data.bin"] and counts the files it stored. *)
Definition sampleFile (n : string) : FileObject :=
  {| uri := n; type := None; name := n; size := None |}.

Definition sampleProcessFile (f : FileObject) : M nat bool :=
  fun w =>
    if String.eqb (name f) "data.bin"
    then (Err "Unsupported file type: data.bin", w)
    else (Ok true, S w).

End BatchRef.

Module ScanRef.
Import FileService.

Local Open Scope string_scope.

(** The tree without its unreadable subdirectories, at every depth. *)
Fixpoint prune (d : Directory) : Directory :=
  match d with
  | ReadFails message => ReadFails message
  | Items entries =>
      Items
        ((fix pruneEntries (entries : list (string * Node)) : list (string * Node) :=
            match entries with
            | [] => []
            | (_, IsDirectory (ReadFails _)) :: rest => pruneEntries rest
            | (itemName, IsDirectory d') :: rest =>
                (itemName, IsDirectory (prune d')) :: pruneEntries rest
            | entry :: rest => entry :: pruneEntries rest
            end) entries)
  end.

(** Two states of a scan that differ at most in the warnings written. *)
Definition sameFiles (a b : Scan) : Prop :=
  supportedFiles a = supportedFiles b /\
  fileCount a = fileCount b /\
  progress a = progress b.

Section Items.

Variable extname : string -> string.
Variable ios : bool.
Variable progressCallback : bool.

(** The loop over the items of one folder, as a function of its own. *)
Fixpoint processItems (path : string) (items : list (string * Node)) (st : Scan)
  : Scan :=
  match items with
  | [] => st
  | (itemName, node) :: rest =>
      let itemPath := joinPath path itemName in
      match node with
      | InfoFails _ => warn path st
      | IsDirectory d' =>
          processItems path rest
            (processFolder extname ios progressCallback itemPath d' st)
      | IsFile size =>
          processItems path rest
            (visitFile extname ios progressCallback itemPath itemName size st)
      | Missing => processItems path rest st
      end
  end.

End Items.

(** ** What a scan is to return

    The files of a tree as the claim describes them, without the state
    of the scan: a directory that cannot be read contributes nothing, and
    the entries after it contribute what they hold. *)
Section Readable.

Variable extname : string -> string.
Variable ios : bool.

(** The file object of the entry [itemName] at [itemPath]. *)
Definition fileObjectAt (itemPath itemName : string) (size : option Z)
  : FileObject :=
  {| uri := if ios then "file://" ++ itemPath else itemPath;
     type := FileUtils.getMimeType extname itemName;
     name := itemName;
     size := size |}.

Definition supported (f : FileObject) : bool :=
  match determineFileType extname f with Some _ => true | None => false end.

(** The supported files at and below a directory, in the order of a
    depth-first walk.  An entry whose information cannot be obtained ends
    the walk of its folder. *)
Fixpoint readableFiles (path : string) (d : Directory) : list FileObject :=
  match d with
  | ReadFails _ => []
  | Items entries =>
      (fix walk (entries : list (string * Node)) : list FileObject :=
         match entries with
         | [] => []
         | (itemName, node) :: rest =>
             match node with
             | IsFile size =>
                 ((if supported (fileObjectAt (joinPath path itemName) itemName size)
                   then [fileObjectAt (joinPath path itemName) itemName size]
                   else []) ++ walk rest)%list
             | IsDirectory d' =>
                 (readableFiles (joinPath path itemName) d' ++ walk rest)%list
             | Missing => walk rest
             | InfoFails _ => []
             end
         end) entries
  end.

(** The same walk over the entries of one folder. *)
Fixpoint entriesFiles (path : string) (entries : list (string * Node))
  : list FileObject :=
  match entries with
  | [] => []
  | (itemName, node) :: rest =>
      match node with
      | IsFile size =>
          ((if supported (fileObjectAt (joinPath path itemName) itemName size)
            then [fileObjectAt (joinPath path itemName) itemName size]
            else []) ++ entriesFiles path rest)%list
      | IsDirectory d' =>
          (readableFiles (joinPath path itemName) d' ++ entriesFiles path rest)%list
      | Missing => entriesFiles path rest
      | InfoFails _ => []
      end
  end.

End Readable.

(** The paths that a scan is to log: those of the directories that
    cannot be read, and that of a folder with an entry whose information
    cannot be obtained. *)
Fixpoint warnedPaths (path : string) (d : Directory) : list string :=
  match d with
  | ReadFails _ => [path]
  | Items entries =>
      (fix walk (entries : list (string * Node)) : list string :=
         match entries with
         | [] => []
         | (itemName, node) :: rest =>
             match node with
             | IsDirectory d' =>
                 (warnedPaths (joinPath path itemName) d' ++ walk rest)%list
             | InfoFails _ => [path]
             | _ => walk rest
             end
         end) entries
  end.

Fixpoint entriesWarned (path : string) (entries : list (string * Node))
  : list string :=
  match entries with
  | [] => []
  | (itemName, node) :: rest =>
      match node with
      | IsDirectory d' =>
          (warnedPaths (joinPath path itemName) d' ++ entriesWarned path rest)%list
      | InfoFails _ => [path]
      | _ => entriesWarned path rest
      end
  end.

(** An entry whose information can be obtained. *)
Definition statable (entry : string * Node) : Prop :=
  match snd entry with InfoFails _ => False | _ => True end.

(** A stand-in for [path.extname] on the plain file names of the
    examples: the suffix that begins at the last dot, empty when the name
    has no dot after its first character. *)
Fixpoint lastDotSuffix (s : string) : option string :=
  match s with
  | EmptyString => None
  | String c s' =>
      match lastDotSuffix s' with
      | Some e => Some e
      | None => if Ascii.eqb c "." then Some s else None
      end
  end.

Definition sampleExtname (s : string) : string :=
  match s with
  | EmptyString => EmptyString
  | String _ s' =>
      match lastDotSuffix s' with
      | Some e => e
      | None => EmptyString
      end
  end.

(** A tree with one unreadable subdirectory and two supported files, one
    of them below a readable subdirectory. *)
Definition sampleTree : Directory :=
  Items [ ("a.txt", IsFile (Some 10%Z));
          ("private", IsDirectory (ReadFails "EACCES"));
          ("data.bin", IsFile (Some 3%Z));
          ("sub", IsDirectory (Items [ ("b.PNG", IsFile None) ])) ].

(** Induction on directory trees, with the hypothesis for every
    subdirectory among the entries. *)
Section DirectoryInduction.

Variable P : Directory -> Prop.
Hypothesis P_fails : forall message, P (ReadFails message).
Hypothesis P_items : forall entries,
  Forall (fun entry => match snd entry with
                       | IsDirectory d => P d
                       | _ => True
                       end) entries ->
  P (Items entries).

Fixpoint Directory_induction (d : Directory) : P d :=
  match d with
  | ReadFails message => P_fails message
  | Items entries =>
      P_items entries
        ((fix go (entries : list (string * Node)) :=
            match entries return Forall _ entries with
            | [] => Forall_nil _
            | (itemName, node) :: rest =>
                Forall_cons (itemName, node)
                  (match node return match node with
                                     | IsDirectory d => P d
                                     | _ => True
                                     end with
                   | IsDirectory d' => Directory_induction d'
                   | _ => I
                   end)
                  (go rest)
            end) entries)
  end.

End DirectoryInduction.

End ScanRef.

Module ExtraRef.

Local Open Scope string_scope.

(** The embedding of the placeholder tensor of [preprocessImage]: the hash
    of its first twenty entries is 105. *)
Definition placeholderEmbedding (numberToString : number -> text) : vector :=
  ModelService.generateDeterministicEmbedding numberToString
    (numberToString 105%R) 768.

(** A collaborator of the image example that cannot resize its image. *)
Definition failingManipulate (imagePath : string) : M unit string :=
  fun w => (Err "decode failed", w).

(** A file system in which every text file reads [hello world]. *)
Definition sampleRead (filePath : string) : M unit text :=
  fun w => (Ok (chars "hello world"), w).

(** The type that a MIME type stands for, by its prefix. *)
Definition mimeClass (mimeType : string) : option ItemType :=
  if String.prefix "text/" mimeType then Some Text
  else if String.prefix "image/" mimeType then Some Image
  else if String.prefix "video/" mimeType then Some Video
  else None.

(** The fallback of [determineFileType]: the type by the extension. *)
Definition extensionType (extension : string) : option ItemType :=
  if FileService.includes [".txt"; ".md"; ".rtf"] extension then Some Text
  else if FileService.includes [".jpg"; ".jpeg"; ".png"; ".gif"; ".webp"] extension
  then Some Image
  else if FileService.includes [".mp4"; ".mov"; ".avi"; ".mkv"] extension
  then Some Video
  else None.

(** The calls of the progress callback while a scan finds [n] files: one
    at every tenth file. *)
Definition progressCalls (n : nat) : list nat :=
  map (fun k => 10 * k)%nat (seq 1 (n / 10)).

(** A file object whose [uri] is that of an entry named as the file, in
    a folder at or below [folderPath]. *)
Definition locatedBelow (ios : bool) (folderPath : string)
  (f : FileService.FileObject) : Prop :=
  exists path,
    String.prefix folderPath path = true /\
    FileService.uri f
    = if ios then "file://" ++ FileService.joinPath path (FileService.name f)
      else FileService.joinPath path (FileService.name f).

(** [Number.MAX_SAFE_INTEGER + 1], that is [2^53]: a sum of integers
    that are not negative is exact in the numbers of the code as long as
    it does not exceed this bound. *)
Definition maxExactInteger : number := 9007199254740992%R.

(** The sessions before [initializeModels] has run. *)
Definition noSessions : ModelService.Sessions :=
  {| ModelService.textSession := None; ModelService.visionSession := None |}.

(** The test of the loop of [processTextFile], negated: a chunk that is
    passed over. *)
Definition blank (chunk : text) : bool :=
  (List.length (EmbeddingService.trim chunk) =? 0)%nat.

(** The state of the component before any handler ran. *)
Definition idle : App.AppState :=
  {| App.isLoading := false; App.loadingMessage := "";
     App.results := []; App.processingProgress := None; App.alerts := [] |}.

(** A file system that knows one text file of 400 characters. *)
Definition sampleInfo (filePath : string) : M unit FileInfoUtils.FileStats :=
  fun w =>
    if String.eqb filePath "/notes/long.txt"
    then (Ok {| FileInfoUtils.fileExists := true;
                FileInfoUtils.statSize := Some 400%Z;
                FileInfoUtils.modificationTime := Some 1700000000%Z |}, w)
    else (Err "ENOENT", w).

Definition sampleContent (filePath : string) : M unit text :=
  fun w => (Ok (repeat "x"%char 400), w).

(** The store after [storeEmbedding] was called on each record in turn. *)
Definition storeAll (pluginMissing : string -> string)
  (records : list DatabaseService.ItemDocType)
  (db : DatabaseService.Database) : DatabaseService.Database :=
  fold_left
    (fun db record =>
       snd (DatabaseService.storeEmbedding pluginMissing record db))
    records db.

(** The record that [processFile] hands to [storeEmbedding] for a file at
    [filePath], processed at time [now]. *)
Definition recordOf (filePath : string) (now : Z) (fileType : ItemType)
  (e : vector) (date : string) : DatabaseService.ItemDocType :=
  {| DatabaseService.id := FileService.generateId filePath now;
     DatabaseService.path := filePath;
     DatabaseService.type := fileType;
     DatabaseService.embedding := e;
     DatabaseService.dateAdded := date |}.

End ExtraRef.

(* ================================================================== *)
(** * Properties of the chunker *)
(* ================================================================== *)

Module ChunkerFacts.
Import EmbeddingUtils ChunkerRef.

Local Open Scope Z_scope.

Lemma lastIndexFrom_spec pat t k :
  lastIndexFrom pat t k = -1 \/ 0 <= lastIndexFrom pat t k <= Z.of_nat k.
Proof.
  induction k as [|k IH]; cbn [lastIndexFrom].
  - destruct (startsWith pat (skipn 0 t)); [right|now left]. lia.
  - destruct (startsWith pat (skipn (S k) t)); [right; lia|].
    destruct IH as [->|H]; [now left|right]. lia.
Qed.

Lemma lastIndexOf_spec t pat position :
  lastIndexOf t pat position = -1 \/
  (0 <= lastIndexOf t pat position <= Z.max position 0 /\
   lastIndexOf t pat position + len pat <= len t).
Proof.
  unfold lastIndexOf.
  destruct (Z.ltb_spec (Z.min (Z.max position 0) (len t - len pat)) 0).
  - now left.
  - destruct (lastIndexFrom_spec pat t
                (Z.to_nat (Z.min (Z.max position 0) (len t - len pat))))
      as [->|E]; [now left|right]. lia.
Qed.

Lemma lastIndexOf_candidate t pat position k :
  len pat = k -> candidate t position k (lastIndexOf t pat position).
Proof. intros <-. apply lastIndexOf_spec. Qed.

Lemma candidate_max t position k a b :
  candidate t position k a -> candidate t position k b ->
  candidate t position k (Z.max a b).
Proof. unfold candidate. lia. Qed.

Lemma acceptable_candidate t position k brk s L :
  candidate t position k brk -> 0 <= s -> 0 <= position -> 0 <= k ->
  acceptable brk s L = true ->
  s < brk + k <= position + k /\ brk + k <= len t.
Proof.
  unfold candidate, acceptable. intros Hc Hs Hp Hk Hacc.
  apply andb_true_iff in Hacc as [Hgt _]. apply Z.gtb_lt in Hgt. lia.
Qed.

(** Where the loop cuts.  With [maxChunkLength >= 1] the cut lies strictly
    after [startIndex]; it stays inside the text whenever a boundary was
    looked for, and is [startIndex + maxChunkLength] otherwise. *)
Lemma cutPoint_bounds t L s :
  1 <= L -> 0 <= s ->
  let e := cutPoint t L s in
  s < e <= s + L + 2 /\ (e <= len t \/ (e = s + L /\ len t <= e)).
Proof.
  intros HL Hs. unfold cutPoint.
  destruct (Z.ltb_spec (s + L) (len t)) as [Hlt|Hge]; [|cbv zeta; lia].
  cbv zeta.
  destruct (acceptable (lastIndexOf t (chars (String "010" (String "010" ""))) (s + L)) s L)
    eqn:E1.
  { apply (acceptable_candidate t (s + L) 2) in E1; [lia| |lia|lia|lia].
    now apply lastIndexOf_candidate. }
  destruct (acceptable (lastIndexOf t (chars (String "010" "")) (s + L)) s L) eqn:E2.
  { apply (acceptable_candidate t (s + L) 1) in E2; [lia| |lia|lia|lia].
    now apply lastIndexOf_candidate. }
  destruct (acceptable (Z.max _ _) s L) eqn:E3.
  { apply (acceptable_candidate t (s + L) 2) in E3; [lia| |lia|lia|lia].
    repeat apply candidate_max; now apply lastIndexOf_candidate. }
  destruct (acceptable (lastIndexOf t (chars " ") (s + L)) s L) eqn:E4.
  { apply (acceptable_candidate t (s + L) 1) in E4; [lia| |lia|lia|lia].
    now apply lastIndexOf_candidate. }
  lia.
Qed.

Lemma substring_skipn t s e :
  0 <= s < e -> s <= len t ->
  substring t s e ++ skipn (Z.to_nat (Z.min e (len t))) t = skipn (Z.to_nat s) t.
Proof.
  intros Hse Hs. unfold substring, clamp.
  replace (Z.min (Z.min (Z.max s 0) (len t)) (Z.min (Z.max e 0) (len t)))
    with s by lia.
  replace (Z.max (Z.min (Z.max s 0) (len t)) (Z.min (Z.max e 0) (len t)))
    with (Z.min e (len t)) by lia.
  replace (Z.to_nat (Z.min e (len t)))
    with (Z.to_nat (Z.min e (len t) - s) + Z.to_nat s)%nat by lia.
  rewrite <- skipn_skipn. apply firstn_skipn.
Qed.

Lemma substring_length t s e :
  0 <= s < e -> len (substring t s e) <= e - s.
Proof.
  intros Hse. unfold substring, clamp, len.
  rewrite length_firstn. lia.
Qed.

Lemma skipn_past (t : text) n : len t <= n -> skipn (Z.to_nat n) t = [].
Proof. intros H. apply skipn_all2. unfold len in H. lia. Qed.

(** The loop, started anywhere inside the text with enough fuel, stops
    and returns chunks that make up the rest of the text. *)
Lemma chunkLoop_lossless t L :
  1 <= L ->
  forall fuel s, 0 <= s -> len t - s <= Z.of_nat fuel ->
  exists chunks,
    chunkLoop fuel t L s = Some chunks /\
    List.concat chunks = skipn (Z.to_nat s) t /\
    Forall (fun c => 1 <= len c <= L + 2) chunks.
Proof.
  intros HL. induction fuel as [|fuel IH]; intros s Hs Hfuel; cbn [chunkLoop];
    destruct (Z.ltb_spec s (len t)) as [Hlt|Hge];
    try (exists []; repeat split; [now rewrite skipn_past|constructor]); try lia.
  destruct (cutPoint_bounds t L s HL Hs) as [He Hcut]. cbv zeta in He, Hcut.
  set (e := cutPoint t L s) in *.
  destruct (IH e) as (chunks & -> & Hcat & Hall); try lia.
  exists (substring t s e :: chunks). cbn [option_map List.concat].
  repeat split.
  - rewrite Hcat, <- (substring_skipn t s e) by lia. f_equal.
    destruct Hcut as [Hin|[_ Hout]].
    + now rewrite Z.min_l.
    + rewrite Z.min_r by lia. now rewrite !skipn_past by lia.
  - constructor; [|assumption]. split.
    + assert (H := substring_skipn t s e ltac:(lia) ltac:(lia)).
      apply (f_equal (@List.length _)) in H.
      rewrite length_app, !length_skipn in H. unfold len in *. lia.
    + pose proof (substring_length t s e). lia.
Qed.

(** With [maxChunkLength >= 1] the chunker returns, and its chunks make
    up the text. *)
Lemma splitTextIntoChunks_returns t L :
  1 <= L ->
  exists chunks,
    splitTextIntoChunks t L = Some chunks /\ List.concat chunks = t.
Proof.
  intros HL. unfold splitTextIntoChunks.
  destruct (Z.eqb_spec (len t) 0) as [Hz|Hnz].
  - exists []. destruct t; [auto|discriminate].
  - destruct (Z.leb_spec (len t) L).
    + exists [t]. simpl. now rewrite app_nil_r.
    + destruct (chunkLoop_lossless t L HL (List.length t) 0) as (chunks & E & Hcat & _);
        [lia|unfold len; lia|].
      now exists chunks.
Qed.

Local Close Scope Z_scope.
End ChunkerFacts.

(* ================================================================== *)
(** * Properties of the placeholder model *)
(* ================================================================== *)

Module ModelFacts.
Import ModelService.

Local Open Scope R_scope.

Lemma sumOfSquares_acc v acc :
  fold_left (fun sum val => sum + val * val) v acc = acc + sumOfSquares v.
Proof.
  unfold sumOfSquares. revert acc.
  induction v as [|x v IH]; intros acc; simpl; [lra|].
  rewrite IH, (IH (0 + x * x)). lra.
Qed.

Lemma sumOfSquares_cons x v : sumOfSquares (x :: v) = x * x + sumOfSquares v.
Proof. unfold sumOfSquares at 1. simpl. rewrite sumOfSquares_acc. lra. Qed.

Lemma sumOfSquares_nonneg v : 0 <= sumOfSquares v.
Proof.
  induction v as [|x v IH]; [unfold sumOfSquares; simpl; lra|].
  rewrite sumOfSquares_cons. nra.
Qed.

Lemma sumOfSquares_pos v x : In x v -> x <> 0 -> 0 < sumOfSquares v.
Proof.
  induction v as [|y v IH]; [intros []|].
  intros [->|Hin] Hx; rewrite sumOfSquares_cons.
  - pose proof (sumOfSquares_nonneg v). nra.
  - specialize (IH Hin Hx). nra.
Qed.

Lemma sumOfSquares_scale v m :
  sumOfSquares (map (fun val => val / m) v) = sumOfSquares v / (m * m).
Proof.
  induction v as [|x v IH]; simpl map.
  - unfold sumOfSquares; simpl. now rewrite Rdiv_0_l.
  - rewrite !sumOfSquares_cons, IH.
    destruct (Req_dec_T m 0) as [->|Hm].
    + unfold Rdiv. rewrite Rmult_0_l, Rinv_0. lra.
    + field. exact Hm.
Qed.

(** Dividing a vector with a non-zero component by its own magnitude
    gives a vector of magnitude one. *)
Lemma normalized_unit v x :
  In x v -> x <> 0 ->
  magnitudeOf (map (fun val => val / magnitudeOf v) v) = 1.
Proof.
  intros Hin Hx. pose proof (sumOfSquares_pos v x Hin Hx) as Hpos.
  unfold magnitudeOf at 1. rewrite sumOfSquares_scale.
  unfold magnitudeOf. rewrite sqrt_sqrt by lra.
  replace (sumOfSquares v / sumOfSquares v) with 1 by (field; lra).
  apply sqrt_1.
Qed.

(** A seed [code / 255 - 0.5] is never zero: [2 * code] is even, 255 odd. *)
Lemma seed_nonzero (c : ascii) : charCode c / 255 - 0.5 <> 0.
Proof.
  unfold charCode. intros H.
  assert (E : INR (2 * nat_of_ascii c) = INR 255).
  { rewrite mult_INR. change (INR 2) with 2. 
    replace (INR 255) with 255 by (simpl; lra). lra. }
  apply INR_eq in E. lia.
Qed.

(** Strictly inside the vector the sine factor is positive, so the
    component is not zero. *)
Lemma sin_position_pos dimensions i :
  (0 < i < dimensions)%nat -> 0 < sin (INR i / INR dimensions * PI).
Proof.
  intros Hi.
  assert (Hi0 : 0 < INR i) by (apply lt_0_INR; lia).
  assert (Hid : INR i < INR dimensions) by (apply lt_INR; lia).
  assert (Hpi := PI_RGT_0).
  assert (Hpos : 0 < INR i / INR dimensions < 1).
  { split.
    - apply Rdiv_lt_0_compat; lra.
    - apply Rmult_lt_reg_r with (INR dimensions); [lra|].
      unfold Rdiv. rewrite Rmult_assoc, Rinv_l by lra. lra. }
  apply sin_gt_0; nra.
Qed.

Lemma component_nonzero hashStr dimensions i :
  (0 < i < dimensions)%nat -> component hashStr dimensions i <> 0.
Proof.
  intros Hi. unfold component, charCodeAt. cbv zeta.
  apply Rmult_integral_contrapositive_currified; [apply seed_nonzero|].
  apply Rgt_not_eq. now apply sin_position_pos.
Qed.

Section WithNumberToString.
Variable numberToString : number -> text.

Lemma generateDeterministicEmbedding_length input dimensions :
  List.length (generateDeterministicEmbedding numberToString input dimensions)
  = dimensions.
Proof.
  unfold generateDeterministicEmbedding. cbv zeta.
  now rewrite !length_map, length_seq.
Qed.

Lemma generateDeterministicEmbedding_unit input dimensions :
  (2 <= dimensions)%nat ->
  magnitudeOf (generateDeterministicEmbedding numberToString input dimensions) = 1.
Proof.
  intros Hd. unfold generateDeterministicEmbedding. cbv zeta.
  set (hashStr := numberToString _).
  apply (normalized_unit _ (component hashStr dimensions 1)).
  - apply in_map, in_seq. lia.
  - apply component_nonzero. lia.
Qed.

End WithNumberToString.

Local Close Scope R_scope.
End ModelFacts.

(* ================================================================== *)
(** * Properties of the aggregator *)
(* ================================================================== *)

Module AggregatorFacts.
Import EmbeddingUtils EmbedderRef.

Local Open Scope list_scope.

Lemma nth_map_seq (f : nat -> R) (n i : nat) :
  (i < n)%nat -> nth i (map f (seq 0 n)) 0%R = f i.
Proof.
  intros Hi. rewrite (nth_indep _ 0%R (f 0%nat)) by now rewrite length_map, length_seq.
  rewrite map_nth, seq_nth by assumption. reflexivity.
Qed.

Lemma map_nth_seq_id (v : vector) :
  map (fun i => nth i v 0%R) (seq 0 (List.length v)) = v.
Proof.
  apply (nth_ext _ _ 0%R 0%R).
  - now rewrite length_map, length_seq.
  - intros i Hi. rewrite length_map, length_seq in Hi. now apply nth_map_seq.
Qed.

(** The accumulation loop of [averageEmbeddings]. *)
Lemma fold_addInto dimension vectors : forall acc,
  List.length acc = dimension ->
  fold_left (addInto dimension) vectors acc
  = map (fun i => (nth i acc 0 + sumAt i vectors)%R) (seq 0 dimension).
Proof.
  induction vectors as [|v vectors IH]; intros acc Hacc; simpl.
  - rewrite <- (map_nth_seq_id acc) at 1. rewrite Hacc.
    apply map_ext. intros i. lra.
  - rewrite IH by (unfold addInto; now rewrite length_map, length_seq).
    apply map_ext_in. intros i Hi. apply in_seq in Hi.
    unfold addInto. rewrite nth_map_seq by lia. lra.
Qed.

(** [averageEmbeddings] returns the element-wise mean. *)
Lemma averageEmbeddings_mean (v : vector) (vectors : list vector) :
  averageEmbeddings (v :: vectors) = Ok (elementwiseMean (v :: vectors)).
Proof.
  destruct vectors as [|v' vectors].
  - simpl. f_equal. rewrite <- (map_nth_seq_id v) at 1.
    apply map_ext. intros i. lra.
  - unfold averageEmbeddings, elementwiseMean. f_equal.
    rewrite fold_addInto by apply repeat_length.
    rewrite map_map. apply map_ext_in. intros i Hi. apply in_seq in Hi.
    rewrite nth_repeat. f_equal. lra.
Qed.

End AggregatorFacts.

(* ================================================================== *)
(** * Claims about the chunker *)
(* ================================================================== *)

Module ChunkerClaims.
Import EmbeddingUtils ChunkerFacts.

(** C4.  For every text and every maximal chunk length [L >= 1],
    [splitTextIntoChunks] returns, and the chunks it returns, put end to
    end in order, are the text itself: no character is lost and none
    appears twice.  The empty text gives no chunk at all. *)
Theorem splitTextIntoChunks_lossless (t : text) (L : Z) :
  (1 <= L)%Z ->
  exists chunks,
    splitTextIntoChunks t L = Some chunks /\
    List.concat chunks = t /\
    (t = [] -> chunks = []).
Proof.
  intros HL. destruct (splitTextIntoChunks_returns t L HL) as (chunks & E & Hcat).
  exists chunks. repeat split; [exact E|exact Hcat|].
  intros ->. now injection E as <-.
Qed.

Lemma splitTextIntoChunks_lossless_witness :
  (1 <= 4)%Z /\
  exists chunks,
    splitTextIntoChunks (chars "abcd efgh") 4 = Some chunks /\
    List.concat chunks = chars "abcd efgh" /\
    (chars "abcd efgh" = [] -> chunks = []).
Proof.
  split; [lia|].
  apply (splitTextIntoChunks_lossless (chars "abcd efgh") 4). lia.
Defined.

(** C5.  The code at the text ["abcd efgh"] with maximal chunk length 4:
    the space at position 4 is found by [lastIndexOf(" ", 4)] and the cut
    is placed after it, so the first chunk is ["abcd "], of length 5.
    With the default length 2048 and a text of 2048 letters, a space and
    one more letter, the first chunk has 2049 characters. *)
Theorem splitTextIntoChunks_exceeds_max :
  (splitTextIntoChunks (chars "abcd efgh") 4
     = Some [chars "abcd "; chars "efgh"] /\
   (len (chars "abcd ") > 4)%Z) /\
  (splitTextIntoChunks (repeat "a"%char 2048 ++ chars " b") defaultMaxChunkLength
     = Some [repeat "a"%char 2048 ++ chars " "; chars "b"] /\
   (len (repeat "a"%char 2048 ++ chars " ") > defaultMaxChunkLength)%Z).
Proof.
  split; (split; [vm_compute; reflexivity|vm_compute; reflexivity]).
Qed.

(** What does hold of the length of a chunk: a cut lies at most one
    separator, two characters, beyond [startIndex + maxChunkLength]. *)
Lemma splitTextIntoChunks_chunk_bound (t : text) (L : Z) chunks :
  (1 <= L)%Z ->
  splitTextIntoChunks t L = Some chunks ->
  Forall (fun c => (1 <= len c <= L + 2)%Z) chunks.
Proof.
  intros HL. unfold splitTextIntoChunks.
  destruct (Z.eqb_spec (len t) 0) as [Hz|Hnz]; [intros [= <-]; constructor|].
  destruct (Z.leb_spec (len t) L).
  - intros [= <-]. repeat constructor; unfold len in *; lia.
  - destruct (chunkLoop_lossless t L HL (List.length t) 0%Z) as (cs & E & _ & Hall);
      [lia|unfold len; lia|].
    rewrite E. now intros [= <-].
Qed.

End ChunkerClaims.

(* ================================================================== *)
(** * Claims about the batch operation *)
(* ================================================================== *)

Module BatchClaims.
Import FileService BatchRef.

Local Open Scope string_scope.
Local Open Scope list_scope.

Section Batch.

Variable W : Type.
Variable processFile : FileObject -> M W bool.

Local Abbreviation outcomes := (BatchRef.outcomes processFile).

Lemma outcomes_length files : forall w,
  List.length (fst (outcomes files w)) = List.length files.
Proof.
  induction files as [|f rest IH]; intros w; simpl; [reflexivity|].
  destruct (processFile f w) as [outcome w'].
  specialize (IH w'). destruct (outcomes rest w') as [others w'']. simpl in *.
  now rewrite IH.
Qed.

(** The loop, started with any intermediate batch. *)
Lemma processLoop_spec cb total files : forall b w,
  let (b', w') := processLoop processFile cb total files b w in
  results b' = results b ++ map (fun p => entryOf (fst p) (snd p))
                                (combine files (fst (outcomes files w))) /\
  processedCount b' = (processedCount b + List.length files)%nat /\
  calls b' = (if cb
              then calls b ++ map (fun k => (k, total))
                                  (seq (S (processedCount b)) (List.length files))
              else calls b) /\
  w' = snd (outcomes files w).
Proof.
  induction files as [|f rest IH]; intros b w; cbn [processLoop].
  - simpl. rewrite !app_nil_r. repeat split; [lia|now destruct cb].
  - unfold processOne. cbn [outcomes].
    destruct (processFile f w) as [outcome w1].
    match goal with |- context [processLoop _ _ _ _ ?b1 w1] => specialize (IH b1 w1) end.
    destruct (processLoop _ _ _ _ _ w1) as [b' w'].
    destruct (outcomes rest w1) as [others w2].
    destruct IH as (Hres & Hcount & Hcalls & Hw). cbn [results processedCount calls] in *.
    repeat split.
    + rewrite Hres, <- app_assoc. reflexivity.
    + simpl. lia.
    + rewrite Hcalls. destruct cb; [|reflexivity].
      rewrite <- app_assoc. reflexivity.
    + exact Hw.
Qed.

(** C1.  [processFolderFiles] returns one entry per input file, in the
    order of the input: the entry of a file records that [processFile]
    returned on it, or the message of the error it threw, and every file
    is processed in the world that the file before it left, failed or not,
    so that no failure ends the batch.  The progress callback, when one is
    given, is called after every file with the number of files processed
    so far and the total: [(1, n)], [(2, n)], ..., [(n, n)]. *)
Theorem processFolderFiles_all_outcomes (files : list FileObject)
  (progressCallback : bool) (w : W) :
  let batch := fst (processFolderFiles processFile files progressCallback w) in
  let n := List.length files in
  List.length (results batch) = n /\
  map file (results batch) = files /\
  results batch
    = map (fun p => entryOf (fst p) (snd p)) (combine files (fst (outcomes files w))) /\
  List.length (fst (outcomes files w)) = n /\
  snd (processFolderFiles processFile files progressCallback w)
    = snd (outcomes files w) /\
  calls batch
    = (if progressCallback then map (fun k => (k, n)) (seq 1 n) else []).
Proof.
  cbv zeta. unfold processFolderFiles.
  pose proof (processLoop_spec progressCallback (List.length files) files
                {| results := []; processedCount := 0; calls := [] |} w) as H.
  destruct (processLoop _ _ _ _ _ w) as [b' w'].
  destruct H as (Hres & _ & Hcalls & Hw).
  cbn [fst snd results calls processedCount app] in *.
  pose proof (outcomes_length files w) as Hlen.
  assert (Hfiles : forall (fs : list FileObject) (os : list (result bool)),
             List.length os = List.length fs ->
             map file (map (fun p => entryOf (fst p) (snd p)) (combine fs os)) = fs).
  { induction fs as [|f fs IH]; intros [|o os] Hl; simpl in *; try discriminate;
      [reflexivity|]. rewrite IH by lia. now destruct o. }
  repeat split.
  - rewrite Hres, length_map, length_combine, Hlen. apply Nat.min_id.
  - rewrite Hres. now apply Hfiles.
  - exact Hres.
  - exact Hlen.
  - exact Hw.
  - rewrite Hcalls. now destruct progressCallback.
Qed.

End Batch.

Example processFolderFiles_second_fails :
  processFolderFiles sampleProcessFile
    [sampleFile "a.txt"; sampleFile "data.bin"; sampleFile "b.png"] true 0
  = ({| results :=
          [ {| file := sampleFile "a.txt"; success := Some true; error := None |};
            {| file := sampleFile "data.bin"; success := None;
               error := Some "Unsupported file type: data.bin" |};
            {| file := sampleFile "b.png"; success := Some true; error := None |} ];
        processedCount := 3;
        calls := [(1, 3); (2, 3); (3, 3)] |}, 2).
Proof. reflexivity. Qed.

End BatchClaims.

(* ================================================================== *)
(** * Claims about the text embedder *)
(* ================================================================== *)

Module TextClaims.
Import EmbeddingUtils ModelService EmbeddingService.

Section Text.

Variable W : Type.
Variable numberToString : number -> text.
Variable sessions : Sessions.

Lemma embedChunks_blank chunks : forall embeddings,
  Forall (fun chunk => trim chunk = []) chunks ->
  embedChunks numberToString sessions chunks embeddings = Ok embeddings.
Proof.
  induction chunks as [|chunk rest IH]; intros embeddings Hall; simpl;
    [reflexivity|].
  inversion Hall as [|? ? Hblank Hrest]; subst.
  rewrite Hblank. simpl. now apply IH.
Qed.

(** When no chunk of the content survives trimming, [embeddings] stays
    empty, [embeddings[0]] is read, and [processTextFile] returns an
    object whose [embedding] is [undefined]: nothing is thrown. *)
Lemma processTextFile_no_chunk (readAsStringAsync : string -> M W text)
  filePath w content w' chunks :
  readAsStringAsync filePath w = (Ok content, w') ->
  splitTextIntoChunks content defaultMaxChunkLength = Some chunks ->
  Forall (fun chunk => trim chunk = []) chunks ->
  processTextFile readAsStringAsync numberToString sessions filePath w
  = Some (Ok {| embedding := None |}, w').
Proof.
  intros Hread Hsplit Hblank. unfold processTextFile.
  rewrite Hread, Hsplit, (embedChunks_blank chunks [] Hblank). reflexivity.
Qed.

(** [processTextFile] always returns or throws: the chunker is called with
    the default length. *)
Lemma processTextFile_returns (readAsStringAsync : string -> M W text)
  filePath w :
  exists outcome w',
    processTextFile readAsStringAsync numberToString sessions filePath w
    = Some (outcome, w').
Proof.
  unfold processTextFile.
  destruct (readAsStringAsync filePath w) as [[content|e] w']; [|now eexists; eexists].
  destruct (ChunkerFacts.splitTextIntoChunks_returns content defaultMaxChunkLength)
    as (chunks & -> & _); [unfold defaultMaxChunkLength; lia|].
  now eexists; eexists.
Qed.

(** C2.  The code on a file that holds three spaces, and on an empty
    file: [processTextFile] returns [{ embedding: undefined }] in both
    cases, whatever the state of the model sessions; it does not fail. *)
Theorem processTextFile_blank_returns (filePath : string) (w : W) :
  processTextFile (fun _ w => (Ok (chars "   "), w)) numberToString sessions filePath w
  = Some (Ok {| embedding := None |}, w) /\
  processTextFile (fun _ w => (Ok [], w)) numberToString sessions filePath w
  = Some (Ok {| embedding := None |}, w).
Proof. split; reflexivity. Qed.

End Text.

End TextClaims.

(* ================================================================== *)
(** * Claims about the store: upsert *)
(* ================================================================== *)

Module StoreClaims.
Import DatabaseService StoreRef.

Local Open Scope string_scope.
Local Open Scope list_scope.

Lemma findOne_app_absent wanted items doc :
  findOne wanted items = None -> hasId wanted doc = true ->
  findOne wanted (items ++ [doc]) = Some doc.
Proof.
  unfold findOne, hasId. intros Habs Hdoc.
  induction items as [|x items IH]; simpl in *.
  - now rewrite Hdoc.
  - destruct (String.eqb (id x) wanted); [discriminate|auto].
Qed.

(** The update plugin was not added, so [existing.update] throws. *)
Lemma updateDocument_throws pluginMissing wanted e d items :
  updateDocument pluginMissing wanted e d items = Err (pluginMissing "update").
Proof. reflexivity. Qed.

(** The two branches of [storeEmbedding] on an initialised store: a
    record whose id is stored already is refused and the collection
    stays as it is; a record with a new id is inserted at the end. *)
Lemma storeEmbedding_found pluginMissing data items existing :
  findOne (id data) items = Some existing ->
  storeEmbedding pluginMissing data (Some items)
  = (Err ("Failed to store embedding: " ++ pluginMissing "update"), Some items).
Proof. intros E. unfold storeEmbedding. now rewrite E. Qed.

Lemma storeEmbedding_fresh pluginMissing data items :
  findOne (id data) items = None ->
  storeEmbedding pluginMissing data (Some items) = (Ok data, Some (items ++ [data])).
Proof. intros E. unfold storeEmbedding. now rewrite E. Qed.

(** C6.  The code on two upserts under one id, on a store that was just
    initialised: the first call inserts its record.  The second finds
    that record by id and calls its method [update]; the update plugin of
    the engine was not added, so the method throws, and the call fails
    with that message behind the prefix of [storeEmbedding].  The store
    holds one record under the id, and it is still the first one: its
    embedding and its timestamp are not replaced. *)
Theorem storeEmbedding_twice_fails (pluginMissing : string -> string)
  (first : ItemDocType) (secondPath : string) (secondType : ItemType)
  (secondEmbedding : vector) (secondDate : string) :
  let second := {| id := id first; path := secondPath; type := secondType;
                   embedding := secondEmbedding; dateAdded := secondDate |} in
  let db1 := snd (storeEmbedding pluginMissing first (initializeDatabase None)) in
  storeEmbedding pluginMissing first (initializeDatabase None)
  = (Ok first, Some [first]) /\
  findOne (id second) (documents db1) = Some first /\
  storeEmbedding pluginMissing second db1
  = (Err ("Failed to store embedding: " ++ pluginMissing "update"), Some [first]) /\
  filter (hasId (id first))
         (documents (snd (storeEmbedding pluginMissing second db1)))
  = [first].
Proof.
  cbv zeta. cbn [initializeDatabase].
  rewrite (storeEmbedding_fresh pluginMissing first [] eq_refl).
  cbn [snd app documents].
  assert (Hfound : findOne (id first) [first] = Some first).
  { unfold findOne. cbn [find]. now rewrite String.eqb_refl. }
  split; [reflexivity|]. split; [exact Hfound|].
  rewrite (storeEmbedding_found pluginMissing
             {| id := id first; path := secondPath; type := secondType;
                embedding := secondEmbedding; dateAdded := secondDate |}
             [first] first Hfound).
  split; [reflexivity|].
  cbn [snd documents filter]. unfold hasId. now rewrite String.eqb_refl.
Qed.

(** C7, as the code has it.  A record whose id the store does not hold
    yet is inserted whatever the length of its embedding: the call
    returns the record, the record found under the id afterwards is the
    record exactly as it was given, its embedding neither truncated nor
    padded.  After the insertion the embeddings of the store all have the
    length [n] exactly when they had before and the new one has. *)
Theorem storeEmbedding_any_dimension (pluginMissing : string -> string)
  (data : ItemDocType) (items : list ItemDocType) :
  findOne (id data) items = None ->
  storeEmbedding pluginMissing data (Some items)
  = (Ok data, Some (items ++ [data])) /\
  findOne (id data) (items ++ [data]) = Some data /\
  forall n, Forall (fun doc => List.length (embedding doc) = n) items ->
            (List.length (embedding data) = n <->
             Forall (fun doc => List.length (embedding doc) = n) (items ++ [data])).
Proof.
  intros E. split; [now apply storeEmbedding_fresh|].
  split; [apply findOne_app_absent; [exact E|apply String.eqb_refl]|].
  intros n Hall. split.
  - intros Hlen. apply Forall_app. split; [assumption|]. now constructor.
  - intros Hall'. apply Forall_app in Hall' as [_ Hall'].
    now inversion Hall'.
Qed.

Lemma storeEmbedding_any_dimension_witness :
  let full := sampleRecord "full" (repeat 0%R 768) in
  let short := sampleRecord "short" [1%R] in
  storeEmbedding missingPlugin short (Some [full])
  = (Ok short, Some ([full] ++ [short])) /\
  findOne (id short) ([full] ++ [short]) = Some short.
Proof.
  cbv zeta.
  destruct (storeEmbedding_any_dimension missingPlugin
              (sampleRecord "short" [1%R])
              [sampleRecord "full" (repeat 0%R 768)] eq_refl)
    as (Hstore & Hfound & _).
  split; [exact Hstore|exact Hfound].
Defined.

(** C7, the claim at a concrete input: an upsert whose embedding has one
    component, not 768, into a store that holds a record of 768
    components.  Nothing fails, and the store then holds embeddings of
    two lengths. *)
Lemma storeEmbedding_no_dimension_check :
  let full := {| id := "full"; path := "/a.txt"; type := Text;
                 embedding := repeat 0%R 768; dateAdded := "2024-01-01" |} in
  let short := {| id := "short"; path := "/b.txt"; type := Text;
                  embedding := [1%R]; dateAdded := "2024-01-02" |} in
  List.length (embedding short) <> 768 /\
  storeEmbedding missingPlugin short (Some [full]) = (Ok short, Some [full; short]) /\
  ~ (exists message,
        fst (storeEmbedding missingPlugin short (Some [full])) = Err message) /\
  ~ Forall (fun doc => List.length (embedding doc) = 768)
           (documents (snd (storeEmbedding missingPlugin short (Some [full])))).
Proof.
  cbv zeta. split; [simpl; lia|]. split; [reflexivity|]. split.
  - intros [message H]. discriminate H.
  - intros H. cbn in H. inversion H as [|? ? _ H']. inversion H' as [|? ? Hs _].
    simpl in Hs. lia.
Qed.

End StoreClaims.

(* ================================================================== *)
(** * Claims about the video embedder *)
(* ================================================================== *)

Module VideoClaims.
Import EmbeddingUtils ModelService EmbeddingService EmbedderRef AggregatorFacts.

Local Open Scope string_scope.
Local Open Scope list_scope.

Section Video.

Variable W : Type.
Variable getThumbnailAsync : string -> Z -> M W string.
Variable manipulateAsync : string -> M W string.
Variable deleteAsync : string -> M W unit.
Variable numberToString : number -> text.
Variable sessions : Sessions.

Local Abbreviation attempt :=
  (frameEmbedding getThumbnailAsync manipulateAsync deleteAsync numberToString sessions).
Local Abbreviation loop :=
  (frameLoop getThumbnailAsync manipulateAsync deleteAsync numberToString sessions).
Local Abbreviation attempts :=
  (frameOutcomes getThumbnailAsync manipulateAsync deleteAsync numberToString sessions).

Lemma getVisionEmbedding_length data v :
  getVisionEmbedding numberToString sessions data = Ok v ->
  List.length v = EMBEDDING_DIM.
Proof.
  unfold getVisionEmbedding. destruct (visionSession sessions); [|discriminate].
  intros [= <-]. apply ModelFacts.generateDeterministicEmbedding_length.
Qed.

Lemma frameEmbedding_length filePath i w v w' :
  attempt filePath i w = (Ok v, w') -> List.length v = EMBEDDING_DIM.
Proof.
  unfold frameEmbedding, bindM.
  destruct (getThumbnailAsync filePath _ w) as [[frame|e] w1]; [|discriminate].
  destruct (preprocessImage manipulateAsync deleteAsync frame w1) as [[data|e] w2];
    [|discriminate].
  intros [= H _]. now apply getVisionEmbedding_length in H.
Qed.

Lemma frameOutcomes_length filePath indices : forall w,
  List.length (fst (attempts filePath indices w)) = List.length indices.
Proof.
  induction indices as [|i rest IH]; intros w; simpl; [reflexivity|].
  destruct (attempt filePath i w) as [outcome w1].
  specialize (IH w1). destruct (attempts filePath rest w1). simpl in *. lia.
Qed.

Lemma frameOutcomes_dimension filePath indices : forall w,
  Forall (fun v => List.length v = EMBEDDING_DIM)
         (successes (fst (attempts filePath indices w))).
Proof.
  induction indices as [|i rest IH]; intros w; simpl; [constructor|].
  destruct (attempt filePath i w) as [outcome w1] eqn:E.
  specialize (IH w1). destruct (attempts filePath rest w1). simpl in *.
  destruct outcome as [v|e]; [|exact IH].
  constructor; [|exact IH]. eapply frameEmbedding_length; exact E.
Qed.

(** The loop collects exactly the embeddings of the attempts that did not
    fail, and goes through every index. *)
Lemma frameLoop_successes filePath indices : forall embeddings w,
  loop filePath indices embeddings w
  = (embeddings ++ successes (fst (attempts filePath indices w)),
     snd (attempts filePath indices w)).
Proof.
  induction indices as [|i rest IH]; intros embeddings w; simpl.
  - now rewrite app_nil_r.
  - destruct (attempt filePath i w) as [[v|e] w1]; rewrite IH;
      destruct (attempts filePath rest w1); simpl; [|reflexivity].
    now rewrite <- app_assoc.
Qed.

Lemma successes_nil {A : Type} (outcomes : list (result A)) :
  successes outcomes = [] <-> Forall (fun r => isOk r = false) outcomes.
Proof.
  induction outcomes as [|[a|e] rest IH]; simpl.
  - split; constructor.
  - split; [discriminate|]. intros H. inversion H. discriminate.
  - rewrite IH. split; [now constructor|]. intros H. now inversion H.
Qed.

(** C8.  [processVideoFile] makes ten frame attempts.  An attempt that
    fails, at extraction, preprocessing or embedding, is skipped and the
    next one is made.  The call fails, with the message that no frame
    could be processed, exactly when all ten attempts failed; otherwise it
    returns the element-wise mean of the embeddings of the attempts that
    succeeded, all of them of 768 components. *)
Theorem processVideoFile_skips_failed_frames (filePath : string) (w : W) :
  let outcomes := fst (attempts filePath frameIndices w) in
  let embedded := successes outcomes in
  List.length outcomes = 10 /\
  Forall (fun v => List.length v = 768) embedded /\
  (embedded = [] <-> Forall (fun r => isOk r = false) outcomes) /\
  processVideoFile getThumbnailAsync manipulateAsync deleteAsync numberToString
    sessions filePath w
  = (match embedded with
     | [] => Err "Failed to process video file: No frames could be processed from video."
     | _ :: _ => Ok {| embedding := Some (elementwiseMean embedded) |}
     end,
     snd (attempts filePath frameIndices w)).
Proof.
  cbv zeta. split; [apply frameOutcomes_length|].
  split; [apply frameOutcomes_dimension|].
  split; [apply successes_nil|].
  unfold processVideoFile. rewrite frameLoop_successes. cbn [app].
  destruct (successes _) as [|v vectors]; [reflexivity|].
  cbn [List.length Nat.eqb]. now rewrite averageEmbeddings_mean.
Qed.

End Video.

(** Seven of the ten frame attempts succeed: the call returns the mean of
    the seven embeddings, each of them the embedding of the placeholder
    tensor. *)
Example processVideoFile_seven_of_ten :
  let e := generateDeterministicEmbedding integerToString
             (integerToString (weightedSumFrom 0 (firstn 20 pixelData) 0))
             768 in
  processVideoFile sampleThumbnails sampleManipulate sampleDelete
    integerToString readySessions "/videos/clip.mp4" tt
  = (Ok {| embedding := Some (elementwiseMean (repeat e 7)) |}, tt).
Proof.
  cbv zeta. unfold processVideoFile.
  cbv -[generateDeterministicEmbedding pixelData weightedSumFrom firstn
        integerToString elementwiseMean averageEmbeddings].
  now rewrite averageEmbeddings_mean.
Qed.

End VideoClaims.

(* ================================================================== *)
(** * Claims about the folder scanner *)
(* ================================================================== *)

Module ScanClaims.
Import FileUtils FileService ScanRef.

Local Open Scope string_scope.
Local Open Scope list_scope.

Section Scan.

Variable extname : string -> string.
Variable ios : bool.
Variable progressCallback : bool.

Local Abbreviation folder := (processFolder extname ios progressCallback).
Local Abbreviation visit := (visitFile extname ios progressCallback).
Local Abbreviation processItems := (ScanRef.processItems extname ios progressCallback).

Lemma processFolder_items path items : forall st,
  folder path (Items items) st = processItems path items st.
Proof.
  induction items as [|[itemName node] rest IH]; intros st; [reflexivity|].
  cbn [processItems]. destruct node; try reflexivity; rewrite <- IH; reflexivity.
Qed.

Lemma sameFiles_refl st : sameFiles st st.
Proof. now repeat split. Qed.

Lemma sameFiles_warn path a b : sameFiles a b -> sameFiles (warn path a) b.
Proof. intros (H1 & H2 & H3). now repeat split. Qed.

Lemma sameFiles_warn_both path path' a b :
  sameFiles a b -> sameFiles (warn path a) (warn path' b).
Proof. intros (H1 & H2 & H3). now repeat split. Qed.

Lemma sameFiles_visit itemPath itemName size a b :
  sameFiles a b ->
  sameFiles (visit itemPath itemName size a) (visit itemPath itemName size b).
Proof.
  intros (H1 & H2 & H3). unfold visitFile.
  destruct (determineFileType _ _); [|now repeat split].
  cbn [fileCount]. rewrite H2.
  destruct (progressCallback && _); repeat split; simpl; congruence.
Qed.

(** Unreadable subdirectories leave no trace in the files found: the scan
    of a tree and the scan of the tree without them go through the same
    files. *)
Lemma processFolder_prune d : forall path a b,
  sameFiles a b ->
  sameFiles (folder path d a) (folder path (prune d) b).
Proof.
  induction d as [message|entries IH] using Directory_induction; intros path a b Hab.
  - now apply sameFiles_warn_both.
  - cbn [prune]. rewrite !processFolder_items.
    revert a b Hab. induction IH as [|[itemName node] rest Hnode _ IHrest];
      intros a b Hab; [exact Hab|].
    cbn [snd] in Hnode. destruct node as [size| |message|d'].
    + cbn [processItems]. apply IHrest. now apply sameFiles_visit.
    + cbn [processItems]. now apply IHrest.
    + cbn [processItems]. now apply sameFiles_warn_both.
    + destruct d' as [message|entries'].
      * cbn [processItems processFolder]. apply IHrest. now apply sameFiles_warn.
      * cbn [processItems]. apply IHrest. now apply Hnode.
Qed.

Lemma readableFiles_items path entries :
  readableFiles extname ios path (Items entries)
  = entriesFiles extname ios path entries.
Proof.
  induction entries as [|[itemName node] rest IH]; [reflexivity|].
  cbn [entriesFiles]. rewrite <- IH. now destruct node.
Qed.

Lemma warnedPaths_items path entries :
  warnedPaths path (Items entries) = entriesWarned path entries.
Proof.
  induction entries as [|[itemName node] rest IH]; [reflexivity|].
  cbn [entriesWarned]. rewrite <- IH. now destruct node.
Qed.

Lemma visitFile_files itemPath itemName size st :
  supportedFiles (visit itemPath itemName size st)
  = supportedFiles st
    ++ (if supported extname (fileObjectAt extname ios itemPath itemName size)
        then [fileObjectAt extname ios itemPath itemName size] else []) /\
  warnings (visit itemPath itemName size st) = warnings st.
Proof.
  unfold visitFile, supported, fileObjectAt. cbv zeta.
  destruct (determineFileType _ _); [|now rewrite app_nil_r].
  now destruct (progressCallback && _).
Qed.

(** The scan of a tree adds to the files found so far the supported
    files of the tree, and to the warnings the paths to be logged. *)
Lemma processFolder_files d : forall path st,
  supportedFiles (folder path d st)
  = supportedFiles st ++ readableFiles extname ios path d /\
  warnings (folder path d st) = warnings st ++ warnedPaths path d.
Proof.
  induction d as [message|entries IH] using Directory_induction; intros path st.
  - cbn. now rewrite app_nil_r.
  - rewrite processFolder_items, readableFiles_items, warnedPaths_items.
    revert st. induction IH as [|[itemName node] rest Hnode _ IHrest]; intros st.
    + cbn. now rewrite !app_nil_r.
    + cbn [snd] in Hnode. cbn [ScanRef.processItems entriesFiles entriesWarned].
      destruct node as [size| |message|d'].
      * destruct (IHrest (visit (joinPath path itemName) itemName size st))
          as [Hf Hw].
        destruct (visitFile_files (joinPath path itemName) itemName size st)
          as [Hf' Hw'].
        rewrite Hf, Hw, Hf', Hw', <- app_assoc. now split.
      * apply IHrest.
      * cbn. now rewrite app_nil_r.
      * destruct (IHrest (folder (joinPath path itemName) d' st)) as [Hf Hw].
        destruct (Hnode (joinPath path itemName) st) as [Hf' Hw'].
        rewrite Hf, Hw, Hf', Hw', <- !app_assoc. now split.
Qed.

Lemma entriesFiles_app path pre : forall post,
  Forall statable pre ->
  entriesFiles extname ios path (pre ++ post)
  = entriesFiles extname ios path pre ++ entriesFiles extname ios path post.
Proof.
  induction pre as [|[itemName node] pre IH]; intros post Hpre; [reflexivity|].
  inversion Hpre as [|? ? Hnode Hrest]; subst. cbn [app entriesFiles].
  destruct node as [size| |message|d']; cbn [statable snd] in Hnode;
    try contradiction; rewrite (IH post Hrest); now rewrite ?app_assoc.
Qed.

(** C9.  The files that [scanFolderForFiles] returns are the supported
    files of the tree, found by a walk in which a directory that cannot
    be read contributes nothing and the entries after it contribute
    what they hold, at every depth; the paths of the directories that
    cannot be read are the warnings written.  In particular: when the
    loop over a folder comes to an unreadable subdirectory, a warning
    with its path is written and the loop goes on with the entries that
    follow it; the files of a folder with an unreadable subdirectory among
    its entries are the files of the entries before it followed by the
    files of the entries after it; the files returned, their count and
    the calls of the progress callback are those of the scan of the tree
    without its unreadable subdirectories.  When the root itself cannot
    be read the scan returns no file, after one warning.  The scan always
    returns. *)
Theorem scanFolderForFiles_skips_unreadable (folderPath : string)
  (root : Directory) :
  supportedFiles (scanFolderForFiles extname ios folderPath root progressCallback)
  = readableFiles extname ios folderPath root /\
  warnings (scanFolderForFiles extname ios folderPath root progressCallback)
  = warnedPaths folderPath root /\
  (forall path pre itemName message post,
      Forall statable pre ->
      readableFiles extname ios path
        (Items (pre ++ (itemName, IsDirectory (ReadFails message)) :: post))
      = entriesFiles extname ios path pre ++ entriesFiles extname ios path post /\
      In (joinPath path itemName)
         (warnedPaths path
            (Items (pre ++ (itemName, IsDirectory (ReadFails message)) :: post)))) /\
  (forall path itemName message rest st,
      folder path (Items ((itemName, IsDirectory (ReadFails message)) :: rest)) st
      = folder path (Items rest) (warn (joinPath path itemName) st)) /\
  sameFiles (scanFolderForFiles extname ios folderPath root progressCallback)
            (scanFolderForFiles extname ios folderPath (prune root) progressCallback) /\
  (forall message,
      scanFolderForFiles extname ios folderPath (ReadFails message) progressCallback
      = {| supportedFiles := []; fileCount := 0;
           progress := if progressCallback then [0%nat] else [];
           warnings := [folderPath] |}).
Proof.
  destruct (processFolder_files root folderPath emptyScan) as [Hfiles Hwarned].
  split; [|split; [|split; [|split; [reflexivity|split]]]].
  - unfold scanFolderForFiles. cbv zeta.
    destruct progressCallback; cbn [report supportedFiles]; exact Hfiles.
  - unfold scanFolderForFiles. cbv zeta.
    destruct progressCallback; cbn [report warnings]; exact Hwarned.
  - intros path pre itemName message post Hpre. split.
    + rewrite readableFiles_items, (entriesFiles_app path pre _ Hpre).
      reflexivity.
    + rewrite warnedPaths_items. clear Hfiles Hwarned.
      induction Hpre as [|[name node] pre Hnode _ IH]; cbn [app entriesWarned].
      * now left.
      * destruct node as [size| |m|d']; cbn [statable snd] in Hnode;
          try contradiction; try exact IH.
        apply in_or_app. now right.
  - unfold scanFolderForFiles.
    pose proof (processFolder_prune root folderPath emptyScan emptyScan
                  (sameFiles_refl _)) as (H1 & H2 & H3).
    destruct progressCallback; repeat split; simpl; congruence.
  - now destruct progressCallback.
Qed.

End Scan.

Example scanFolderForFiles_sample :
  scanFolderForFiles sampleExtname false "/docs" sampleTree true
  = {| supportedFiles :=
         [ {| uri := "/docs/a.txt"; type := Some "text/plain";
              name := "a.txt"; size := Some 10%Z |};
           {| uri := "/docs/sub/b.PNG"; type := Some "image/png";
              name := "b.PNG"; size := None |} ];
       fileCount := 2;
       progress := [2%nat];
       warnings := ["/docs/private"] |}.
Proof. reflexivity. Qed.

End ScanClaims.

(* ================================================================== *)
(** * Claims about the store: search *)
(* ================================================================== *)

Module SearchClaims.
Import DatabaseService StoreRef.

Local Open Scope list_scope.
Local Open Scope R_scope.

Lemma Rleb_true x y : Rleb x y = true <-> x <= y.
Proof. unfold Rleb. destruct (Rle_dec x y); split; auto; discriminate. Qed.

Lemma Rleb_false x y : Rleb x y = false <-> y < x.
Proof.
  unfold Rleb. destruct (Rle_dec x y); split; try discriminate; auto; lra.
Qed.

Lemma insertByDistance_perm x sorted :
  Permutation (insertByDistance x sorted) (x :: sorted).
Proof.
  induction sorted as [|y rest IH]; simpl; [reflexivity|].
  destruct (Rleb (snd x) (snd y)); [reflexivity|].
  rewrite IH. apply perm_swap.
Qed.

Lemma sortByDistance_perm found : Permutation (sortByDistance found) found.
Proof.
  induction found as [|x rest IH]; simpl; [reflexivity|].
  rewrite insertByDistance_perm. now constructor.
Qed.

Lemma insertByDistance_sorted x sorted :
  StronglySorted closer sorted -> StronglySorted closer (insertByDistance x sorted).
Proof.
  induction 1 as [|y rest Hrest IH Hy]; simpl.
  - repeat constructor.
  - destruct (Rleb (snd x) (snd y)) eqn:E.
    + apply Rleb_true in E. constructor; [now constructor|].
      constructor; [exact E|].
      eapply Forall_impl; [|exact Hy]. unfold closer. intros z Hz. lra.
    + apply Rleb_false in E. constructor; [exact IH|].
      rewrite insertByDistance_perm. constructor; [unfold closer; lra|exact Hy].
Qed.

Lemma sortByDistance_sorted found : StronglySorted closer (sortByDistance found).
Proof.
  induction found as [|x rest IH]; simpl; [constructor|].
  now apply insertByDistance_sorted.
Qed.

(** The sort is stable at its head: a document that is strictly closer
    than all the documents before it and at least as close as all those
    after it comes first. *)
Lemma sortByDistance_head pre x post :
  Forall (fun p => snd x < snd p) pre ->
  Forall (fun p => snd x <= snd p) post ->
  exists rest, sortByDistance (pre ++ x :: post) = x :: rest.
Proof.
  intros Hpre Hpost. induction Hpre as [|p pre Hp _ IH]; simpl.
  - assert (Hall : Forall (fun p => snd x <= snd p) (sortByDistance post)).
    { rewrite sortByDistance_perm. exact Hpost. }
    destruct (sortByDistance post) as [|y rest]; simpl; [now eexists|].
    inversion Hall as [|? ? Hy _]; subst.
    apply Rleb_true in Hy. rewrite Hy. now eexists.
  - destruct IH as [rest ->]. simpl.
    assert (E : Rleb (snd p) (snd x) = false) by now apply Rleb_false.
    rewrite E. now eexists.
Qed.

Lemma euclideanDistance_nonneg a b : 0 <= euclideanDistance a b.
Proof. unfold euclideanDistance. apply sqrt_pos. Qed.

Lemma euclideanDistance_same q : euclideanDistance q q = 0.
Proof.
  unfold euclideanDistance.
  assert (E : fold_left (fun sum '(x, y) => sum + (x - y) * (x - y)) (combine q q) 0 = 0).
  { induction q as [|x q IH]; simpl; [reflexivity|].
    replace (0 + (x - x) * (x - x)) with 0 by ring. exact IH. }
  rewrite E. apply sqrt_0.
Qed.

(** For a distance within a positive threshold the score of the code,
    [1 - d / threshold], is [max(0, 1 - d / threshold)]. *)
Lemma score_clamped d threshold :
  0 < threshold -> 0 <= d <= threshold ->
  1 - d / threshold = Rmax 0 (1 - d / threshold).
Proof.
  intros Ht Hd. rewrite Rmax_right; [reflexivity|].
  assert (d / threshold <= 1); [|lra].
  apply Rmult_le_reg_r with threshold; [exact Ht|].
  unfold Rdiv. rewrite Rmult_assoc, Rinv_l by lra. lra.
Qed.

Lemma filter_measure q threshold items :
  filter (fun f => Rleb (snd f) threshold) (map (measure q) items)
  = map (measure q) (filter (within q threshold) items).
Proof.
  induction items as [|doc items IH]; simpl; [reflexivity|].
  unfold within at 1. destruct (Rleb _ threshold); simpl; now rewrite IH.
Qed.

(** C3.  On an initialised store, with a positive threshold,
    [searchByVector] returns the records whose Euclidean distance to the
    query is at most the threshold, these and no others, in ascending
    order of distance, cut to the first [limit], each with the score
    [max(0, 1 - d / threshold)].  When a record of the corpus has the
    query itself as embedding and no record inserted before it lies at
    distance zero, that record comes first, with score 1. *)
Theorem searchByVector_ranked (items : list ItemDocType) (q : vector)
  (limit : nat) (threshold : R) :
  0 < threshold ->
  exists ranked : list Found,
    Permutation (map fst ranked) (filter (within q threshold) items) /\
    Forall (fun f => snd f = euclideanDistance q (embedding (fst f)) /\
                     0 <= snd f <= threshold) ranked /\
    (forall doc, In doc (map fst ranked) <->
                 In doc items /\ euclideanDistance q (embedding doc) <= threshold) /\
    StronglySorted closer ranked /\
    searchByVector q limit threshold (Some items)
    = Ok (map (fun f => {| data := fst f;
                           score := Some (Rmax 0 (1 - snd f / threshold)) |})
              (firstn limit ranked)) /\
    (forall pre r post,
        items = pre ++ r :: post ->
        embedding r = q ->
        Forall (fun p => euclideanDistance q (embedding p) <> 0) pre ->
        (1 <= limit)%nat ->
        exists rest,
          searchByVector q limit threshold (Some items)
          = Ok ({| data := r; score := Some 1 |} :: rest)).
Proof.
  intros Ht.
  set (kept := map (measure q) (filter (within q threshold) items)).
  assert (Hfind : vectorFind items q threshold limit = firstn limit (sortByDistance kept)).
  { unfold vectorFind. cbv zeta. fold (measure q). now rewrite filter_measure. }
  assert (Hkept : Forall (fun f => snd f = euclideanDistance q (embedding (fst f)) /\
                                   0 <= snd f <= threshold) kept).
  { unfold kept. apply Forall_map. apply Forall_forall. intros doc Hin.
    apply filter_In in Hin as [_ Hin]. apply Rleb_true in Hin. simpl.
    pose proof (euclideanDistance_nonneg q (embedding doc)). auto. }
  assert (Hranked : Forall (fun f => snd f = euclideanDistance q (embedding (fst f)) /\
                                     0 <= snd f <= threshold) (sortByDistance kept)).
  { rewrite sortByDistance_perm. exact Hkept. }
  assert (Hperm : Permutation (map fst (sortByDistance kept))
                              (filter (within q threshold) items)).
  { rewrite sortByDistance_perm. unfold kept. rewrite map_map. simpl.
    now rewrite map_id. }
  exists (sortByDistance kept). split; [exact Hperm|]. split; [exact Hranked|].
  split.
  { intros doc. split.
    - intros Hin. eapply Permutation_in in Hin; [|exact Hperm].
      apply filter_In in Hin as [Hin Hw]. now apply Rleb_true in Hw.
    - intros [Hin Hw]. eapply Permutation_in; [symmetry; exact Hperm|].
      apply filter_In. split; [exact Hin|]. now apply Rleb_true. }
  split; [apply sortByDistance_sorted|]. split.
  - unfold searchByVector. rewrite Hfind. f_equal.
    apply map_ext_in. intros f Hin.
    assert (Hf : In f (sortByDistance kept)).
    { rewrite <- (firstn_skipn limit). apply in_or_app. now left. }
    rewrite Forall_forall in Hranked. destruct (Hranked f Hf) as [_ Hd].
    unfold withScore, distanceOf. now rewrite <- score_clamped.
  - intros pre r post -> Hr Hpre Hlimit.
    assert (Hzero : euclideanDistance q (embedding r) = 0).
    { rewrite Hr. apply euclideanDistance_same. }
    assert (Hr_in : within q threshold r = true).
    { unfold within. apply Rleb_true. lra. }
    unfold searchByVector. rewrite Hfind. unfold kept.
    rewrite filter_app. cbn [filter]. rewrite Hr_in, map_app. cbn [map].
    destruct (sortByDistance_head
                (map (measure q) (filter (within q threshold) pre))
                (measure q r)
                (map (measure q) (filter (within q threshold) post)))
      as [rest Hhead].
    + apply Forall_map. apply Forall_forall. intros p Hp.
      apply filter_In in Hp as [Hp _]. rewrite Forall_forall in Hpre.
      specialize (Hpre p Hp). simpl. rewrite Hzero.
      pose proof (euclideanDistance_nonneg q (embedding p)). lra.
    + apply Forall_map. apply Forall_forall. intros p _. simpl. rewrite Hzero.
      apply euclideanDistance_nonneg.
    + rewrite Hhead. destruct limit as [|limit]; [lia|]. cbn [firstn map].
      eexists. f_equal. f_equal.
      unfold withScore, distanceOf, measure. cbn [fst snd]. rewrite Hzero.
      f_equal. f_equal. unfold Rdiv. rewrite Rmult_0_l. ring.
Qed.

Lemma searchByVector_ranked_witness :
  0 < 0.5 /\
  exists rest,
    searchByVector [1; 0] 5 0.5
      (Some [sampleRecord "far" [0; 1]; sampleRecord "same" [1; 0]])
    = Ok ({| data := sampleRecord "same" [1; 0]; score := Some 1 |} :: rest).
Proof.
  split; [lra|].
  destruct (searchByVector_ranked
              [sampleRecord "far" [0; 1]; sampleRecord "same" [1; 0]]
              [1; 0] 5 0.5 ltac:(lra)) as (ranked & _ & _ & _ & _ & _ & Hfirst).
  apply (Hfirst [sampleRecord "far" [0; 1]] (sampleRecord "same" [1; 0]) []);
    [reflexivity|reflexivity| |lia].
  constructor; [|constructor]. unfold euclideanDistance. simpl.
  intros H. apply sqrt_eq_0 in H; lra.
Defined.

End SearchClaims.

(* ================================================================== *)
(** * Claims about the embeddings of the placeholder model *)
(* ================================================================== *)

Module ModelClaims.
Import EmbeddingUtils ModelService EmbeddingService EmbedderRef ModelFacts AggregatorFacts.

Local Open Scope string_scope.
Local Open Scope list_scope.
Local Open Scope R_scope.

(** C10, as the code has it.  With its session initialised, each of
    [getTextEmbedding] and [getVisionEmbedding] returns, on every input, a
    vector of exactly 768 components and of Euclidean magnitude one: the
    raw embedding divided by its own norm.  The aggregator returns a
    single vector as it is, as does the text embedder with a single
    chunk, and of several vectors of 768 components the element-wise
    mean, again of 768 components; it does not divide the mean by its
    norm. *)
Theorem embeddings_unit_768 (numberToString : R -> text) (sessions : Sessions) :
  (forall x, numberToString x <> []) ->
  (forall t,
      match textSession sessions with
      | Some _ =>
          exists v, getTextEmbedding numberToString sessions t = Ok v /\
                    List.length v = 768%nat /\ magnitudeOf v = 1
      | None =>
          getTextEmbedding numberToString sessions t = Err "Text model not initialized"
      end) /\
  (forall data,
      match visionSession sessions with
      | Some _ =>
          exists v, getVisionEmbedding numberToString sessions data = Ok v /\
                    List.length v = 768%nat /\ magnitudeOf v = 1
      | None =>
          getVisionEmbedding numberToString sessions data
          = Err "Vision model not initialized"
      end) /\
  (forall v, averageEmbeddings [v] = Ok v /\ finalTextEmbedding [v] = Ok (Some v)) /\
  (forall v vectors,
      List.length v = 768%nat ->
      averageEmbeddings (v :: vectors) = Ok (elementwiseMean (v :: vectors)) /\
      List.length (elementwiseMean (v :: vectors)) = 768%nat).
Proof.
  intros _. repeat split.
  - intros t. unfold getTextEmbedding. destruct (textSession sessions); [|reflexivity].
    eexists. split; [reflexivity|]. split.
    + apply generateDeterministicEmbedding_length.
    + apply generateDeterministicEmbedding_unit. unfold EMBEDDING_DIM. lia.
  - intros data. unfold getVisionEmbedding.
    destruct (visionSession sessions); [|reflexivity].
    eexists. split; [reflexivity|]. split.
    + apply generateDeterministicEmbedding_length.
    + apply generateDeterministicEmbedding_unit. unfold EMBEDDING_DIM. lia.
  - apply averageEmbeddings_mean.
  - unfold elementwiseMean. now rewrite length_map, length_seq.
Qed.

Lemma embeddings_unit_768_witness :
  (forall x : R, (fun _ : R => chars "0") x <> []) /\
  exists v,
    getTextEmbedding (fun _ => chars "0")
      {| textSession := Some true; visionSession := Some true |} (chars "hello")
    = Ok v /\
    List.length v = 768%nat /\ magnitudeOf v = 1.
Proof.
  split; [intros x; discriminate|].
  exact (proj1 (embeddings_unit_768 (fun _ => chars "0")
                  {| textSession := Some true; visionSession := Some true |}
                  (fun x => ltac:(discriminate)))
               (chars "hello")).
Defined.

(** ** The mean of two different unit vectors *)

Lemma magnitude_one v : magnitudeOf v = 1 -> sumOfSquares v = 1.
Proof.
  unfold magnitudeOf. intros H.
  rewrite <- (sqrt_sqrt (sumOfSquares v)) by apply sumOfSquares_nonneg.
  rewrite H. ring.
Qed.

(** The parallelogram identity, over any list of indices. *)
Lemma parallelogram (f g : nat -> R) (indices : list nat) :
  sumOfSquares (map (fun i => (f i + g i) / 2) indices)
  + sumOfSquares (map (fun i => (f i - g i) / 2) indices)
  = (sumOfSquares (map f indices) + sumOfSquares (map g indices)) / 2.
Proof.
  induction indices as [|i indices IH]; cbn [map].
  - unfold sumOfSquares. simpl. lra.
  - rewrite !sumOfSquares_cons. lra.
Qed.

Lemma mean_of_two_below_one (u v : vector) (n i : nat) :
  List.length u = n -> List.length v = n ->
  magnitudeOf u = 1 -> magnitudeOf v = 1 ->
  (i < n)%nat -> nth i u 0 <> nth i v 0 ->
  magnitudeOf (elementwiseMean [u; v]) < 1.
Proof.
  intros Hu Hv Mu Mv Hi Hdiff.
  apply magnitude_one in Mu, Mv.
  assert (E : elementwiseMean [u; v]
              = map (fun k => (nth k u 0 + nth k v 0) / 2) (seq 0 n)).
  { unfold elementwiseMean. rewrite Hu. apply map_ext. intros k.
    unfold sumAt. cbn [fold_right List.length]. change (INR 2) with (1 + 1). lra. }
  pose proof (parallelogram (fun k => nth k u 0) (fun k => nth k v 0) (seq 0 n)) as P.
  rewrite <- Hu in P at 3. rewrite <- Hv in P at 3.
  rewrite !map_nth_seq_id, Mu, Mv in P.
  assert (D : 0 < sumOfSquares (map (fun k => (nth k u 0 - nth k v 0) / 2) (seq 0 n))).
  { apply (sumOfSquares_pos _ ((nth i u 0 - nth i v 0) / 2)).
    - apply (in_map (fun k => (nth k u 0 - nth k v 0) / 2)), in_seq. lia.
    - lra. }
  unfold magnitudeOf. rewrite E, <- sqrt_1.
  apply sqrt_lt_1; [apply sumOfSquares_nonneg|lra|lra].
Qed.

(** ** Two chunks with different embeddings *)

Lemma hashFrom_zeros n : forall i acc, hashFrom i (repeat zero n) acc = acc.
Proof.
  induction n as [|n IH]; intros i acc; cbn [repeat hashFrom]; [reflexivity|].
  rewrite IH. unfold charCode. simpl. ring.
Qed.

Lemma integerToString_INR (n : nat) :
  integerToString (INR n) = chars (NilEmpty.string_of_uint (Nat.to_uint n)).
Proof. unfold integerToString. now rewrite Int_part_INR, Nat2Z.id. Qed.

Section Components.

Variable numberToString : R -> text.

(** A component of the normalised embedding, strictly inside it. *)
Lemma generateDeterministicEmbedding_nth input dimensions i :
  (i < dimensions)%nat ->
  let hashStr := numberToString (hashFrom 0 input 0) in
  let raw := map (component hashStr dimensions) (seq 0 dimensions) in
  nth i (generateDeterministicEmbedding numberToString input dimensions) 0
  = component hashStr dimensions i / sqrt (sumOfSquares raw).
Proof.
  intros Hi. cbv zeta. unfold generateDeterministicEmbedding. cbv zeta.
  rewrite map_map. now rewrite nth_map_seq.
Qed.

Lemma raw_magnitude_pos hashStr dimensions :
  (2 <= dimensions)%nat ->
  0 < sqrt (sumOfSquares (map (component hashStr dimensions) (seq 0 dimensions))).
Proof.
  intros Hd. apply sqrt_lt_R0.
  apply (sumOfSquares_pos _ (component hashStr dimensions 1)).
  - apply in_map, in_seq. lia.
  - apply component_nonzero. lia.
Qed.

End Components.

(** If two vectors [a * s / m] and [c * s / m'] agree at two indices at
    which the first has one seed [a] and the second the seeds [b] and
    [c], then [b = c]. *)
Lemma seeds_agree a b c s1 s2 m m' :
  s1 <> 0 -> s2 <> 0 -> m <> 0 -> m' <> 0 ->
  a * s1 / m = b * s1 / m' ->
  a * s2 / m = c * s2 / m' ->
  b = c.
Proof.
  intros Hs1 Hs2 Hm Hm' H1 H2.
  assert (E1 : a * m' = b * m).
  { apply Rmult_eq_reg_r with (s1 / (m * m')).
    - transitivity (a * s1 / m); [field; auto|]. rewrite H1. field; auto.
    - unfold Rdiv. apply Rmult_integral_contrapositive_currified; [exact Hs1|].
      apply Rinv_neq_0_compat. now apply Rmult_integral_contrapositive_currified. }
  assert (E2 : a * m' = c * m).
  { apply Rmult_eq_reg_r with (s2 / (m * m')).
    - transitivity (a * s2 / m); [field; auto|]. rewrite H2. field; auto.
    - unfold Rdiv. apply Rmult_integral_contrapositive_currified; [exact Hs2|].
      apply Rinv_neq_0_compat. now apply Rmult_integral_contrapositive_currified. }
  apply Rmult_eq_reg_r with m; [congruence|exact Hm].
Qed.

(** The embeddings of a text whose hash prints as ["0"] and of a text
    whose hash prints as ["97"] differ at index 1 or at index 2. *)
Lemma embeddings_differ (numberToString : R -> text) (t1 t2 : text) :
  numberToString (hashFrom 0 t1 0) = chars "0" ->
  numberToString (hashFrom 0 t2 0) = chars "97" ->
  exists i, (i < 768)%nat /\
    nth i (generateDeterministicEmbedding numberToString t1 768) 0
    <> nth i (generateDeterministicEmbedding numberToString t2 768) 0.
Proof.
  intros H1 H2.
  destruct (Req_dec_T
              (nth 1 (generateDeterministicEmbedding numberToString t1 768) 0)
              (nth 1 (generateDeterministicEmbedding numberToString t2 768) 0))
    as [E1|N1]; [|exists 1%nat; split; [lia|exact N1]].
  exists 2%nat. split; [lia|]. intros E2.
  rewrite !generateDeterministicEmbedding_nth in E1, E2 by lia.
  cbv zeta in E1, E2. rewrite H1, H2 in E1, E2.
  pose proof (raw_magnitude_pos (chars "0") 768 ltac:(lia)) as M1.
  pose proof (raw_magnitude_pos (chars "97") 768 ltac:(lia)) as M2.
  pose proof (sin_position_pos 768 1 ltac:(lia)) as S1.
  pose proof (sin_position_pos 768 2 ltac:(lia)) as S2.
  revert E1 E2 M1 M2.
  generalize (sqrt (sumOfSquares (map (component (chars "0") 768) (seq 0 768)))).
  generalize (sqrt (sumOfSquares (map (component (chars "97") 768) (seq 0 768)))).
  intros m' m E1 E2 M1 M2.
  unfold component, charCodeAt, charCode in E1, E2. cbv zeta in E1, E2.
  change (List.length (chars "0")) with 1%nat in E1, E2.
  change (List.length (chars "97")) with 2%nat in E1, E2.
  change (nth (1 mod 1) (chars "0") zero) with "0"%char in E1.
  change (nth (2 mod 1) (chars "0") zero) with "0"%char in E2.
  change (nth (1 mod 2) (chars "97") zero) with "7"%char in E1.
  change (nth (2 mod 2) (chars "97") zero) with "9"%char in E2.
  assert (E : INR (nat_of_ascii "7") / 255 - 0.5 = INR (nat_of_ascii "9") / 255 - 0.5).
  { refine (seeds_agree _ _ _ _ _ m m' _ _ _ _ E1 E2); lra. }
  change (nat_of_ascii "7") with 55%nat in E.
  change (nat_of_ascii "9") with 57%nat in E.
  rewrite !INR_IZR_INZ in E. simpl in E. lra.
Qed.

Lemma longContent_chunks :
  splitTextIntoChunks longContent defaultMaxChunkLength
  = Some [repeat zero 2048; chars "a"].
Proof. vm_compute. reflexivity. Qed.

Lemma longContent_not_blank :
  (0 <? List.length (trim (repeat zero 2048)))%nat = true /\
  (0 <? List.length (trim (chars "a")))%nat = true.
Proof. split; vm_compute; reflexivity. Qed.

(** C10, the claim at a concrete input.  The text file [longContent] goes
    through [processTextFile] as two chunks, whose hashes are 0 and 97;
    the embedding returned for the file, which [processFile] stores, is
    the mean of the two chunk embeddings: it has 768 components and its
    magnitude is below one. *)
Lemma processTextFile_mean_not_unit :
  exists v : vector,
    processTextFile (W := unit) (fun _ w => (Ok longContent, w))
      integerToString readySessions "/notes/long.txt" tt
    = Some (Ok {| embedding := Some v |}, tt) /\
    List.length v = 768%nat /\
    magnitudeOf v <> 1.
Proof.
  set (u := generateDeterministicEmbedding integerToString (repeat zero 2048) 768).
  set (v := generateDeterministicEmbedding integerToString (chars "a") 768).
  exists (elementwiseMean [u; v]).
  assert (Hu : List.length u = 768%nat) by apply generateDeterministicEmbedding_length.
  assert (Hv : List.length v = 768%nat) by apply generateDeterministicEmbedding_length.
  split; [|split].
  - unfold processTextFile. rewrite longContent_chunks.
    destruct longContent_not_blank as [B1 B2].
    cbn [embedChunks]. rewrite B1.
    unfold getTextEmbedding at 1. cbn [textSession readySessions bind app].
    rewrite B2. unfold getTextEmbedding at 1. cbn [textSession readySessions bind app].
    unfold finalTextEmbedding. cbn [List.length Nat.ltb Nat.leb bind].
    fold u. fold v.
    now rewrite averageEmbeddings_mean.
  - unfold elementwiseMean. now rewrite length_map, length_seq.
  - assert (H1 : integerToString (hashFrom 0 (repeat zero 2048) 0) = chars "0").
    { rewrite hashFrom_zeros. apply (integerToString_INR 0). }
    assert (H2 : integerToString (hashFrom 0 (chars "a") 0) = chars "97").
    { replace (hashFrom 0 (chars "a") 0) with (INR 97).
      - rewrite integerToString_INR. reflexivity.
      - cbn [hashFrom chars list_ascii_of_string]. unfold charCode.
        change (nat_of_ascii "a") with 97%nat. change (0 mod 10)%nat with 0%nat.
        rewrite pow_O. ring. }
    destruct (embeddings_differ integerToString _ _ H1 H2) as (i & Hi & Hdiff).
    apply Rlt_not_eq.
    apply (mean_of_two_below_one u v 768 i); try assumption;
      apply generateDeterministicEmbedding_unit; lia.
Qed.

End ModelClaims.

(* ================================================================== *)
(** * More properties of the chunker *)
(* ================================================================== *)

Module ChunkerProperties.
Import EmbeddingUtils ChunkerRef ChunkerFacts.

Local Open Scope list_scope.
Local Open Scope Z_scope.

Lemma concat_length_ge (chunks : list text) :
  Forall (fun c => 1 <= len c) chunks ->
  Z.of_nat (List.length chunks) <= len (List.concat chunks).
Proof.
  induction 1 as [|c chunks Hc _ IH]; simpl; [unfold len; simpl; lia|].
  unfold len in *. rewrite length_app. lia.
Qed.

(** X1.  For a maximal length [L >= 1], no chunk is empty and no chunk
    has more than [L + 2] characters; so a text is never cut into more
    chunks than it has characters. *)
Theorem splitTextIntoChunks_chunk_sizes (t : text) (L : Z) chunks :
  1 <= L ->
  splitTextIntoChunks t L = Some chunks ->
  Forall (fun c => 1 <= len c <= L + 2) chunks /\
  Z.of_nat (List.length chunks) <= len t.
Proof.
  intros HL Hsplit.
  pose proof (ChunkerClaims.splitTextIntoChunks_chunk_bound t L chunks HL Hsplit) as Hall.
  split; [exact Hall|].
  destruct (splitTextIntoChunks_returns t L HL) as (chunks' & E & Hcat).
  rewrite Hsplit in E. injection E as <-.
  replace (len t) with (len (List.concat chunks)) by now rewrite Hcat.
  apply concat_length_ge. eapply Forall_impl; [|exact Hall]. simpl. lia.
Qed.

Lemma splitTextIntoChunks_chunk_sizes_witness :
  1 <= 4 /\
  splitTextIntoChunks (chars "abcd efgh") 4 = Some [chars "abcd "; chars "efgh"] /\
  Forall (fun c => 1 <= len c <= 4 + 2) [chars "abcd "; chars "efgh"] /\
  Z.of_nat (List.length [chars "abcd "; chars "efgh"]) <= len (chars "abcd efgh").
Proof.
  split; [lia|]. split; [reflexivity|].
  exact (splitTextIntoChunks_chunk_sizes
           (chars "abcd efgh") 4 [chars "abcd "; chars "efgh"]
           ltac:(lia) eq_refl).
Defined.

(** Every cut lies more than half the maximal length after the start of
    its chunk. *)
Lemma cutPoint_half t L s :
  1 <= L -> 0 <= s -> 2 * cutPoint t L s > 2 * s + L.
Proof.
  intros HL Hs. unfold cutPoint.
  destruct (s + L <? len t); [|lia]. cbv zeta. unfold acceptable.
  repeat match goal with
  | |- context [if ?a && ?b then _ else _] =>
      destruct (andb_spec a b) as [[_ ?%Z.gtb_lt]|_]; [lia|]
  | |- context [if (?x >? ?y) && ?b then _ else _] =>
      destruct ((x >? y) && b) eqn:?
  end.
  all: try lia.
Qed.

Lemma substring_inside t s e :
  0 <= s < e -> e <= len t -> len (substring t s e) = e - s.
Proof.
  intros Hse He.
  pose proof (substring_skipn t s e Hse ltac:(lia)) as H.
  apply (f_equal (@List.length _)) in H.
  rewrite length_app, !length_skipn in H. unfold len in *. lia.
Qed.

Lemma chunkLoop_half t L :
  1 <= L ->
  forall fuel s chunks, 0 <= s ->
    chunkLoop fuel t L s = Some chunks ->
    Forall (fun c => 2 * len c > L) (removelast chunks).
Proof.
  intros HL. induction fuel as [|fuel IH]; intros s chunks Hs; cbn [chunkLoop];
    destruct (Z.ltb_spec s (len t)) as [Hlt|Hge];
    try discriminate; try (intros [= <-]; constructor).
  destruct (cutPoint_bounds t L s HL Hs) as [He _]. cbv zeta in He.
  pose proof (cutPoint_half t L s HL Hs) as Hhalf.
  set (e := cutPoint t L s) in *.
  destruct (chunkLoop fuel t L e) as [rest|] eqn:E; [|discriminate].
  intros [= <-]. specialize (IH e rest ltac:(lia) E).
  destruct rest as [|c rest]; [constructor|].
  change (removelast (substring t s e :: c :: rest))
    with (substring t s e :: removelast (c :: rest)).
  constructor; [|exact IH].
  assert (He' : e < len t).
  { destruct fuel; cbn [chunkLoop] in E;
      destruct (Z.ltb_spec e (len t)); try discriminate; assumption. }
  rewrite substring_inside by lia. lia.
Qed.

(** X2.  For a maximal length [L >= 1], every chunk that is followed by
    another one has more than [L / 2] characters: only the last chunk of
    a text can be short. *)
Theorem splitTextIntoChunks_only_last_short (t : text) (L : Z) chunks :
  1 <= L ->
  splitTextIntoChunks t L = Some chunks ->
  Forall (fun c => 2 * len c > L) (removelast chunks).
Proof.
  intros HL. unfold splitTextIntoChunks.
  destruct (len t =? 0); [intros [= <-]; constructor|].
  destruct (len t <=? L); [intros [= <-]; constructor|].
  now apply chunkLoop_half.
Qed.

Lemma splitTextIntoChunks_only_last_short_witness :
  1 <= 4 /\
  splitTextIntoChunks (chars "abcd efgh") 4 = Some [chars "abcd "; chars "efgh"] /\
  Forall (fun c => 2 * len c > 4) (removelast [chars "abcd "; chars "efgh"]).
Proof.
  split; [lia|]. split; [reflexivity|].
  exact (splitTextIntoChunks_only_last_short
           (chars "abcd efgh") 4 [chars "abcd "; chars "efgh"]
           ltac:(lia) eq_refl).
Defined.

(** With a maximal length of zero no cut moves forward. *)
Lemma cutPoint_zero t s : 0 <= s -> cutPoint t 0 s = s.
Proof.
  intros Hs. unfold cutPoint. rewrite Z.add_0_r.
  destruct (s <? len t); [|reflexivity]. cbv zeta.
  assert (Hno : forall brk, candidate t s 2 brk \/ candidate t s 1 brk ->
                            acceptable brk s 0 = false).
  { intros brk Hc. unfold acceptable, candidate in *.
    destruct (Z.gtb_spec brk s); [lia|reflexivity]. }
  rewrite !Hno; try reflexivity.
  - right. now apply lastIndexOf_candidate.
  - left. repeat apply candidate_max; now apply lastIndexOf_candidate.
  - right. now apply lastIndexOf_candidate.
  - left. now apply lastIndexOf_candidate.
Qed.

(** X3.  With the maximal length 0 and a text that is not empty, the loop
    of the chunker never ends: whatever the number of iterations allowed,
    it is still running, and [splitTextIntoChunks] does not return. *)
Theorem splitTextIntoChunks_zero_diverges (t : text) :
  t <> [] ->
  (forall fuel, chunkLoop fuel t 0 0 = None) /\
  splitTextIntoChunks t 0 = None.
Proof.
  intros Ht.
  assert (Hlen : 0 < len t) by (destruct t; [contradiction|unfold len; simpl; lia]).
  assert (Hloop : forall fuel, chunkLoop fuel t 0 0 = None).
  { induction fuel as [|fuel IH]; cbn [chunkLoop];
      destruct (Z.ltb_spec 0 (len t)); try lia; [reflexivity|].
    rewrite cutPoint_zero by lia. now rewrite IH. }
  split; [exact Hloop|].
  unfold splitTextIntoChunks.
  destruct (Z.eqb_spec (len t) 0); [lia|].
  destruct (Z.leb_spec (len t) 0); [lia|]. apply Hloop.
Qed.

Lemma splitTextIntoChunks_zero_diverges_witness :
  chars "a" <> [] /\ splitTextIntoChunks (chars "a") 0 = None.
Proof.
  split; [discriminate|].
  exact (proj2 (splitTextIntoChunks_zero_diverges (chars "a") ltac:(discriminate))).
Defined.

End ChunkerProperties.

(* ================================================================== *)
(** * More properties of the aggregator and of the embedders *)
(* ================================================================== *)

Module AggregatorProperties.
Import EmbeddingUtils EmbedderRef AggregatorFacts.

Local Open Scope list_scope.
Local Open Scope R_scope.

Lemma sumAt_repeat i (v : vector) n :
  sumAt i (repeat v n) = INR n * nth i v 0.
Proof.
  induction n as [|n IH]; [simpl; lra|].
  rewrite S_INR. cbn [repeat sumAt fold_right]. fold (sumAt i (repeat v n)).
  rewrite IH. lra.
Qed.

Lemma elementwiseMean_repeat (v : vector) k :
  elementwiseMean (repeat v (S k)) = v.
Proof.
  cbn [repeat]. unfold elementwiseMean.
  transitivity (map (fun i => nth i v 0) (seq 0 (List.length v)));
    [|apply map_nth_seq_id].
  apply map_ext. intros i.
  change (v :: repeat v k) with (repeat v (S k)).
  rewrite sumAt_repeat, repeat_length.
  assert (INR (S k) <> 0) by (apply not_0_INR; lia).
  field. assumption.
Qed.

Lemma averageEmbeddings_repeat (v : vector) k :
  averageEmbeddings (repeat v (S k)) = Ok v.
Proof.
  change (repeat v (S k)) with (v :: repeat v k).
  rewrite averageEmbeddings_mean. f_equal. apply (elementwiseMean_repeat v k).
Qed.

(** X4.  The average of one or more copies of a vector is the vector
    itself; in particular [averageEmbeddings([v])] and
    [averageEmbeddings([v, v])] are [v].  The empty list is refused. *)
Theorem averageEmbeddings_copies (v : vector) (k : nat) :
  averageEmbeddings (repeat v (S k)) = Ok v /\
  averageEmbeddings [v] = Ok v /\
  averageEmbeddings [v; v] = Ok v /\
  averageEmbeddings [] = Err "No embeddings to average".
Proof.
  split; [apply averageEmbeddings_repeat|].
  split; [reflexivity|]. split; [apply (averageEmbeddings_repeat v 1)|reflexivity].
Qed.

(** X5.  On vectors of one dimension [averageEmbeddings] returns a vector
    of that dimension whose component at every index is the sum of the
    components at that index divided by the number of vectors. *)
Theorem averageEmbeddings_componentwise (v : vector) (vectors : list vector) :
  Forall (fun e => List.length e = List.length v) vectors ->
  exists mean,
    averageEmbeddings (v :: vectors) = Ok mean /\
    List.length mean = List.length v /\
    forall i, (i < List.length v)%nat ->
      nth i mean 0
      = fold_right (fun e acc => nth i e 0 + acc) 0 (v :: vectors)
        / INR (S (List.length vectors)).
Proof.
  intros _. exists (elementwiseMean (v :: vectors)).
  split; [apply averageEmbeddings_mean|].
  unfold elementwiseMean. split; [now rewrite length_map, length_seq|].
  intros i Hi. now rewrite nth_map_seq.
Qed.

Lemma averageEmbeddings_componentwise_witness :
  Forall (fun e => List.length e = List.length [1; 2]) [[3; 4]] /\
  exists mean,
    averageEmbeddings [[1; 2]; [3; 4]] = Ok mean /\
    List.length mean = 2%nat /\
    forall i, (i < 2)%nat ->
      nth i mean 0
      = fold_right (fun e acc => nth i e 0 + acc) 0 [[1; 2]; [3; 4]] / INR 2.
Proof.
  split; [repeat constructor|].
  exact (averageEmbeddings_componentwise [1; 2] [[3; 4]]
           ltac:(repeat constructor)).
Defined.

End AggregatorProperties.

Module EmbedderProperties.
Import EmbeddingUtils ModelService EmbeddingService EmbedderRef ExtraRef.
Import ModelFacts AggregatorFacts AggregatorProperties.

Local Open Scope string_scope.
Local Open Scope list_scope.

Lemma firstn_repeat_le {A : Type} (x : A) (n m : nat) :
  (n <= m)%nat -> firstn n (repeat x m) = repeat x n.
Proof.
  revert m; induction n as [|n IH]; intros [|m] H; simpl; try lia; try reflexivity.
  now rewrite IH by lia.
Qed.

(** The hash that [getVisionEmbedding] computes from the placeholder
    tensor: [0.5 * (1 + 2 + ... + 20)]. *)
Lemma pixelData_hash : weightedSumFrom 0 (firstn 20 pixelData) 0 = 105%R.
Proof.
  unfold pixelData. rewrite firstn_repeat_le by lia.
  cbn [repeat weightedSumFrom]. rewrite !INR_IZR_INZ. simpl. lra.
Qed.

Section Embedders.

Variable W : Type.
Variable readAsStringAsync : string -> M W text.
Variable getThumbnailAsync : string -> Z -> M W string.
Variable manipulateAsync : string -> M W string.
Variable deleteAsync : string -> M W unit.
Variable numberToString : R -> text.
Variable sessions : Sessions.

Lemma preprocessImage_data imagePath w data w' :
  preprocessImage manipulateAsync deleteAsync imagePath w = (Ok data, w') ->
  data = pixelData.
Proof.
  unfold preprocessImage, rethrowM, bindM, ret.
  destruct (manipulateAsync imagePath w) as [[uri|e] w1]; [|discriminate].
  destruct (String.prefix "file://" uri).
  - destruct (deleteAsync uri w1) as [[[]|e] w2]; [|discriminate]. now intros [= <- _].
  - now intros [= <- _].
Qed.

Lemma preprocessImage_error imagePath w message w' :
  preprocessImage manipulateAsync deleteAsync imagePath w = (Err message, w') ->
  exists e, message = ("Failed to preprocess image: " ++ e)%string.
Proof.
  unfold preprocessImage, rethrowM, bindM, ret.
  destruct (manipulateAsync imagePath w) as [[uri|e] w1].
  - destruct (String.prefix "file://" uri).
    + destruct (deleteAsync uri w1) as [[[]|e] w2]; [discriminate|].
      intros [= <- _]. now exists e.
    + discriminate.
  - intros [= <- _]. now exists e.
Qed.

Lemma getVisionEmbedding_pixelData :
  getVisionEmbedding numberToString sessions pixelData
  = match visionSession sessions with
    | Some _ => Ok (placeholderEmbedding numberToString)
    | None => Err "Vision model not initialized"
    end.
Proof.
  unfold getVisionEmbedding. destruct (visionSession sessions); [|reflexivity].
  cbv zeta. rewrite pixelData_hash.
  unfold placeholderEmbedding, EMBEDDING_DIM. reflexivity.
Qed.

Lemma placeholderEmbedding_length :
  List.length (placeholderEmbedding numberToString) = 768%nat.
Proof. unfold placeholderEmbedding. apply generateDeterministicEmbedding_length. Qed.

Lemma getVisionEmbedding_placeholder v :
  getVisionEmbedding numberToString sessions pixelData = Ok v ->
  v = placeholderEmbedding numberToString.
Proof.
  rewrite getVisionEmbedding_pixelData.
  destruct (visionSession sessions); [|discriminate]. congruence.
Qed.

(** X7.  Every image that [processImageFile] processes gets one and the
    same embedding, that of the placeholder tensor, of 768 components:
    the result does not depend on the file. *)
Theorem processImageFile_same_embedding (filePath : string) (w w' : W)
  (r : EmbeddingResult) :
  processImageFile manipulateAsync deleteAsync numberToString sessions filePath w
  = (Ok r, w') ->
  r = {| embedding := Some (placeholderEmbedding numberToString) |} /\
  List.length (placeholderEmbedding numberToString) = 768%nat.
Proof.
  intros H. split; [|apply placeholderEmbedding_length].
  unfold processImageFile, rethrowM, bindM in H.
  destruct (preprocessImage manipulateAsync deleteAsync filePath w)
    as [[data|e] w1] eqn:E; [|discriminate].
  apply preprocessImage_data in E. subst data.
  destruct (getVisionEmbedding numberToString sessions pixelData) as [v|e] eqn:Ev;
    [|discriminate].
  apply getVisionEmbedding_placeholder in Ev. subst v.
  cbn [bind rethrow ret fst snd] in H. now injection H as <- _.
Qed.

(** X11.  When [processImageFile] fails, its message names the stage that
    failed: either preprocessing, with the cause, or the vision model,
    which is not initialised.  The text ["Unknown error"] never appears. *)
Theorem processImageFile_errors (filePath : string) (w w' : W) (message : string) :
  processImageFile manipulateAsync deleteAsync numberToString sessions filePath w
  = (Err message, w') ->
  (exists cause,
      message = ("Failed to process image file: Failed to preprocess image: "
                 ++ cause)%string)
  \/ (visionSession sessions = None /\
      message = "Failed to process image file: Vision model not initialized").
Proof.
  intros H. unfold processImageFile, rethrowM, bindM in H.
  destruct (preprocessImage manipulateAsync deleteAsync filePath w)
    as [[data|e] w1] eqn:E.
  - right. apply preprocessImage_data in E. subst data.
    rewrite getVisionEmbedding_pixelData in H.
    destruct (visionSession sessions); [discriminate|].
    cbn [bind rethrow ret fst snd] in H. now injection H as <- _.
  - left. apply preprocessImage_error in E as [cause ->].
    cbn [bind rethrow ret fst snd] in H. injection H as <- _. now exists cause.
Qed.

Local Abbreviation attempt :=
  (frameEmbedding getThumbnailAsync manipulateAsync deleteAsync numberToString sessions).
Local Abbreviation attempts :=
  (frameOutcomes getThumbnailAsync manipulateAsync deleteAsync numberToString sessions).

Lemma frameEmbedding_placeholder filePath i w v w' :
  attempt filePath i w = (Ok v, w') -> v = placeholderEmbedding numberToString.
Proof.
  unfold frameEmbedding, bindM.
  destruct (getThumbnailAsync filePath _ w) as [[frame|e] w1]; [|discriminate].
  destruct (preprocessImage manipulateAsync deleteAsync frame w1)
    as [[data|e] w2] eqn:E; [|discriminate].
  apply preprocessImage_data in E. subst data.
  intros [= H _]. now apply getVisionEmbedding_placeholder.
Qed.

Lemma frameOutcomes_placeholder filePath indices : forall w,
  exists k,
    successes (fst (attempts filePath indices w))
    = repeat (placeholderEmbedding numberToString) k.
Proof.
  induction indices as [|i rest IH]; intros w; simpl; [now exists 0%nat|].
  destruct (attempt filePath i w) as [outcome w1] eqn:E.
  destruct (IH w1) as [k Hk]. destruct (attempts filePath rest w1). simpl in *.
  destruct outcome as [v|e]; [|now exists k].
  apply frameEmbedding_placeholder in E. subst v. exists (S k). simpl. now rewrite Hk.
Qed.

Lemma successes_length {A : Type} (outcomes : list (result A)) :
  (List.length (successes outcomes) <= List.length outcomes)%nat.
Proof.
  induction outcomes as [|[a|e] rest IH]; simpl; lia.
Qed.

(** X8.  The embedding that [processVideoFile] gives to a video depends
    on the video only through the number [k] of its frames that could be
    embedded, between one and ten: every frame embedded has the embedding
    of the placeholder tensor, the one that every image gets, and the
    result is what [averageEmbeddings] returns on [k] copies of it. *)
Theorem processVideoFile_same_embedding (filePath : string) (w w' : W)
  (r : EmbeddingResult) :
  processVideoFile getThumbnailAsync manipulateAsync deleteAsync numberToString
    sessions filePath w = (Ok r, w') ->
  exists (k : nat) (mean : vector),
    (1 <= k <= 10)%nat /\
    successes (fst (attempts filePath frameIndices w))
    = repeat (placeholderEmbedding numberToString) k /\
    averageEmbeddings (repeat (placeholderEmbedding numberToString) k) = Ok mean /\
    r = {| embedding := Some mean |}.
Proof.
  unfold processVideoFile. rewrite VideoClaims.frameLoop_successes. cbn [app].
  pose proof (successes_length (fst (attempts filePath frameIndices w))) as Hlen.
  rewrite (VideoClaims.frameOutcomes_length W getThumbnailAsync manipulateAsync
             deleteAsync numberToString sessions filePath frameIndices w) in Hlen.
  destruct (frameOutcomes_placeholder filePath frameIndices w) as [k Hk].
  rewrite Hk in *. rewrite repeat_length in *.
  destruct k as [|k]; [discriminate|]. cbn [Nat.eqb].
  destruct (averageEmbeddings (repeat (placeholderEmbedding numberToString) (S k)))
    as [mean|e] eqn:E; [|discriminate].
  cbn [bind rethrow]. intros [= <- _]. exists (S k), mean.
  change (List.length frameIndices) with 10%nat in Hlen.
  repeat split; try lia. exact E.
Qed.

(** ** The text embedder *)

Lemma getTextEmbedding_length t v :
  getTextEmbedding numberToString sessions t = Ok v -> List.length v = 768%nat.
Proof.
  unfold getTextEmbedding. destruct (textSession sessions); [|discriminate].
  intros [= <-]. apply generateDeterministicEmbedding_length.
Qed.

Lemma embedChunks_length chunks : forall embeddings es,
  Forall (fun v => List.length v = 768%nat) embeddings ->
  embedChunks numberToString sessions chunks embeddings = Ok es ->
  Forall (fun v => List.length v = 768%nat) es.
Proof.
  induction chunks as [|chunk rest IH]; intros embeddings es Hall; simpl.
  - now intros [= <-].
  - destruct (0 <? List.length (trim chunk))%nat; [|now apply IH].
    destruct (getTextEmbedding numberToString sessions chunk) as [v|e] eqn:E;
      [|discriminate].
    simpl. apply IH. apply Forall_app. split; [assumption|].
    constructor; [|constructor]. now apply getTextEmbedding_length in E.
Qed.

(** X9.  Whatever the text file, a vector that [processTextFile] returns
    has 768 components, whether it is the embedding of one chunk or the
    mean of the embeddings of several. *)
Theorem processTextFile_dimension (filePath : string) (w w' : W) (v : vector) :
  processTextFile readAsStringAsync numberToString sessions filePath w
  = Some (Ok {| embedding := Some v |}, w') ->
  List.length v = 768%nat.
Proof.
  unfold processTextFile.
  destruct (readAsStringAsync filePath w) as [[content|e] w1]; [|discriminate].
  destruct (splitTextIntoChunks content defaultMaxChunkLength) as [chunks|];
    [|discriminate].
  destruct (embedChunks numberToString sessions chunks []) as [es|e] eqn:E;
    [|discriminate].
  apply embedChunks_length in E; [|constructor].
  unfold finalTextEmbedding. cbn [bind].
  destruct es as [|v0 [|v1 rest]]; cbn [List.length Nat.ltb Nat.leb nth_error];
    try discriminate.
  - cbn [bind rethrow]. intros [= <- _]. now inversion E.
  - rewrite averageEmbeddings_mean. cbn [bind rethrow]. intros [= <- _].
    unfold elementwiseMean. rewrite length_map, length_seq. now inversion E.
Qed.

(** X10.  A text file of at most 2048 characters that is not blank is
    embedded as a whole, when the text model is initialised: the result
    is the embedding of its content, a vector of magnitude one. *)
Theorem processTextFile_short (filePath : string) (w w' : W) (content : text) :
  readAsStringAsync filePath w = (Ok content, w') ->
  (List.length content <= 2048)%nat ->
  trim content <> [] ->
  textSession sessions <> None ->
  processTextFile readAsStringAsync numberToString sessions filePath w
  = Some (Ok {| embedding :=
                  Some (generateDeterministicEmbedding numberToString content 768) |},
          w') /\
  magnitudeOf (generateDeterministicEmbedding numberToString content 768) = 1%R.
Proof.
  intros Hread Hlen Htrim Hsession.
  split; [|apply generateDeterministicEmbedding_unit; lia].
  assert (Hne : content <> []) by (intros ->; now apply Htrim).
  unfold processTextFile. rewrite Hread. unfold splitTextIntoChunks, len.
  destruct (Z.eqb_spec (Z.of_nat (List.length content)) 0) as [Hz|_].
  { destruct content; [contradiction|simpl in Hz; lia]. }
  destruct (Z.leb_spec (Z.of_nat (List.length content)) defaultMaxChunkLength)
    as [_|Hgt]; [|unfold defaultMaxChunkLength in Hgt; lia].
  cbn [embedChunks].
  destruct (trim content) as [|c rest] eqn:E; [contradiction|]. cbn [List.length Nat.ltb Nat.leb].
  unfold getTextEmbedding. destruct (textSession sessions); [|contradiction].
  reflexivity.
Qed.

End Embedders.

Lemma processImageFile_same_embedding_witness :
  processImageFile sampleManipulate sampleDelete integerToString readySessions
    "/images/a.png" tt
  = (Ok {| embedding := Some (placeholderEmbedding integerToString) |}, tt) /\
  List.length (placeholderEmbedding integerToString) = 768%nat.
Proof.
  assert (H : exists r, processImageFile sampleManipulate sampleDelete
                          integerToString readySessions "/images/a.png" tt
                        = (Ok r, tt)) by (eexists; reflexivity).
  destruct H as [r H].
  pose proof (processImageFile_same_embedding unit sampleManipulate sampleDelete
                integerToString readySessions "/images/a.png" tt tt r H) as [Hr Hl].
  subst r. now split.
Defined.

Lemma processImageFile_errors_witness :
  (exists cause,
      "Failed to process image file: Failed to preprocess image: decode failed"
      = ("Failed to process image file: Failed to preprocess image: " ++ cause)%string)
  \/ (visionSession readySessions = None /\
      "Failed to process image file: Failed to preprocess image: decode failed"
      = "Failed to process image file: Vision model not initialized").
Proof.
  apply (processImageFile_errors unit failingManipulate sampleDelete integerToString
           readySessions "/images/a.png" tt tt).
  reflexivity.
Defined.

Lemma processVideoFile_same_embedding_witness :
  exists (k : nat) (mean : vector),
    (1 <= k <= 10)%nat /\
    successes (fst (frameOutcomes sampleThumbnails sampleManipulate sampleDelete
                      integerToString readySessions "/videos/clip.mp4"
                      frameIndices tt))
    = repeat (placeholderEmbedding integerToString) k /\
    averageEmbeddings (repeat (placeholderEmbedding integerToString) k) = Ok mean /\
    {| embedding :=
         Some (elementwiseMean
                 (repeat (generateDeterministicEmbedding integerToString
                            (integerToString
                               (weightedSumFrom 0 (firstn 20 pixelData) 0)) 768) 7)) |}
    = {| embedding := Some mean |}.
Proof.
  apply (processVideoFile_same_embedding unit sampleThumbnails sampleManipulate
           sampleDelete integerToString readySessions "/videos/clip.mp4" tt tt).
  exact VideoClaims.processVideoFile_seven_of_ten.
Defined.

Lemma processTextFile_dimension_witness :
  List.length (generateDeterministicEmbedding integerToString (chars "hello world") 768)
  = 768%nat.
Proof.
  apply (processTextFile_dimension unit sampleRead integerToString readySessions
           "/notes/a.txt" tt tt).
  cbv -[generateDeterministicEmbedding]. reflexivity.
Defined.

Lemma processTextFile_short_witness :
  processTextFile sampleRead integerToString readySessions "/notes/a.txt" tt
  = Some (Ok {| embedding :=
                  Some (generateDeterministicEmbedding integerToString
                          (chars "hello world") 768) |},
          tt) /\
  magnitudeOf (generateDeterministicEmbedding integerToString (chars "hello world") 768)
  = 1%R.
Proof.
  apply (processTextFile_short unit sampleRead integerToString readySessions
           "/notes/a.txt" tt tt (chars "hello world")).
  - reflexivity.
  - simpl; lia.
  - vm_compute; discriminate.
  - discriminate.
Defined.

End EmbedderProperties.

(* ================================================================== *)
(** * The hash of the placeholder model *)
(* ================================================================== *)

Module HashProperties.
Import ModelService EmbedderRef ExtraRef.

Local Open Scope R_scope.

Lemma hashFrom_acc input : forall i acc x,
  hashFrom i input (acc + x) = hashFrom i input acc + x.
Proof.
  induction input as [|char rest IH]; intros i acc x; cbn [hashFrom]; [reflexivity|].
  rewrite <- IH. f_equal. ring.
Qed.

Lemma hashFrom_app a : forall b i acc,
  hashFrom i (a ++ b) acc = hashFrom (i + List.length a) b (hashFrom i a acc).
Proof.
  induction a as [|char a IH]; intros b i acc; cbn [hashFrom app List.length].
  - now rewrite Nat.add_0_r.
  - rewrite IH. f_equal. lia.
Qed.

Lemma weight_period (i k : nat) :
  (k mod 10 = 0)%nat -> ((i + k) mod 10 = i mod 10)%nat.
Proof.
  intros Hk. rewrite <- Nat.Div0.add_mod_idemp_r, Hk, Nat.add_0_r. reflexivity.
Qed.

(** The hash weighs a character by its position modulo ten only: two
    characters whose positions differ by a multiple of ten can change
    places. *)
Lemma hashFrom_swap (pre mid post : text) (c d : ascii) :
  (S (List.length mid) mod 10 = 0)%nat ->
  hashFrom 0 (pre ++ c :: mid ++ d :: post) 0
  = hashFrom 0 (pre ++ d :: mid ++ c :: post) 0.
Proof.
  intros Hk. rewrite !hashFrom_app. cbn [hashFrom]. rewrite !hashFrom_app.
  cbn [hashFrom]. f_equal.
  replace (S (0 + List.length pre) + List.length mid)%nat
    with (0 + List.length pre + S (List.length mid))%nat by lia.
  rewrite (weight_period _ _ Hk). rewrite !hashFrom_acc. ring.
Qed.

(** X6.  The text embedding cannot tell apart two texts that differ by
    the exchange of two characters ten places apart, or any multiple of
    ten, as long as the hash of the text stays within [2^53], where the
    sum that the code computes is the exact sum: the hash weighs a
    character by its position modulo ten.  The text with the characters
    exchanged has the same hash, within the same bound. *)
Theorem getTextEmbedding_swap (numberToString : number -> text)
  (sessions : Sessions) (pre mid post : text) (c d : ascii) :
  (S (List.length mid) mod 10 = 0)%nat ->
  hashFrom 0 (pre ++ c :: mid ++ d :: post) 0 <= maxExactInteger ->
  getTextEmbedding numberToString sessions (pre ++ c :: mid ++ d :: post)
  = getTextEmbedding numberToString sessions (pre ++ d :: mid ++ c :: post) /\
  hashFrom 0 (pre ++ d :: mid ++ c :: post) 0 <= maxExactInteger.
Proof.
  intros Hk Hexact. split.
  - unfold getTextEmbedding, generateDeterministicEmbedding.
    now rewrite (hashFrom_swap pre mid post c d Hk).
  - now rewrite <- (hashFrom_swap pre mid post c d Hk).
Qed.

Lemma sample_hash_exact :
  hashFrom 0 ([] ++ "a"%char :: chars "123456789" ++ "b"%char :: []) 0
  <= maxExactInteger.
Proof.
  unfold chars, maxExactInteger.
  cbn [app list_ascii_of_string hashFrom Nat.modulo Nat.divmod fst snd Nat.sub].
  unfold charCode. rewrite !INR_IZR_INZ.
  cbn [nat_of_ascii N_of_ascii N_of_digits Z.of_nat N.to_nat Pos.to_nat
       Pos.iter_op Nat.add Pos.of_succ_nat Pos.succ N.add N.mul Pos.add Pos.mul].
  rewrite !positive_nat_Z. lra.
Qed.

Lemma getTextEmbedding_swap_witness :
  getTextEmbedding integerToString readySessions (chars "a123456789b")
  = getTextEmbedding integerToString readySessions (chars "b123456789a") /\
  hashFrom 0 (chars "b123456789a") 0 <= maxExactInteger.
Proof.
  exact (getTextEmbedding_swap integerToString readySessions
           [] (chars "123456789") [] "a"%char "b"%char eq_refl sample_hash_exact).
Defined.

End HashProperties.

(* ================================================================== *)
(** * The ids of the stored records *)
(* ================================================================== *)

Module IdProperties.
Import DatabaseService FileService StoreRef ExtraRef StoreClaims.

Local Open Scope string_scope.
Local Open Scope list_scope.

Lemma keepAlphaNumeric_kept p :
  Forall (fun c => isAlphaNumeric c = true)
         (list_ascii_of_string (keepAlphaNumeric p)).
Proof.
  induction p as [|c p IH]; simpl; [constructor|].
  destruct (isAlphaNumeric c) eqn:E; [|exact IH]. simpl. now constructor.
Qed.

(** A string of letters and digits, an underscore, anything: the
    underscore that separates the parts is the first one. *)
Lemma separator_unique a : forall a' s s',
  Forall (fun c => isAlphaNumeric c = true) (list_ascii_of_string a) ->
  Forall (fun c => isAlphaNumeric c = true) (list_ascii_of_string a') ->
  (a ++ String "_" s = a' ++ String "_" s')%string ->
  a = a' /\ s = s'.
Proof.
  induction a as [|c a IH]; intros [|c' a'] s s' Ha Ha' H; simpl in *.
  - injection H as ->. now split.
  - injection H as <- _. inversion Ha' as [|? ? Hc _]. discriminate Hc.
  - injection H as -> _. inversion Ha as [|? ? Hc _]. discriminate Hc.
  - injection H as -> H. inversion Ha; inversion Ha'; subst.
    destruct (IH a' s s') as [-> ->]; auto.
Qed.

Lemma integerString_inj t t' : integerString t = integerString t' -> t = t'.
Proof.
  unfold integerString. intros H. apply DecimalZ.to_int_inj.
  apply (f_equal NilEmpty.int_of_string) in H. rewrite !NilEmpty.isi in H.
  now injection H.
Qed.

Lemma generateId_inj p t p' t' :
  generateId p t = generateId p' t' ->
  keepAlphaNumeric p = keepAlphaNumeric p' /\ t = t'.
Proof.
  unfold generateId. simpl. intros H.
  apply separator_unique in H as [Hp Ht]; try apply keepAlphaNumeric_kept.
  split; [assumption|now apply integerString_inj].
Qed.

(** X12.  Two calls of [generateId] give the same id exactly when the
    paths have the same letters and digits in the same order and the
    clock shows the same millisecond: the characters that are removed,
    such as the separators of the path, do not count. *)
Theorem generateId_same_id (p p' : string) (t t' : Z) :
  generateId p t = generateId p' t' <->
  keepAlphaNumeric p = keepAlphaNumeric p' /\ t = t'.
Proof.
  split; [apply generateId_inj|].
  intros [Hp ->]. unfold generateId. now rewrite Hp.
Qed.

Lemma length_append (a b : string) :
  String.length (a ++ b) = (String.length a + String.length b)%nat.
Proof. induction a as [|c a IH]; simpl; [reflexivity|now rewrite IH]. Qed.

Lemma string_of_uint_nonempty d :
  d <> Decimal.Nil -> NilEmpty.string_of_uint d <> "".
Proof. destruct d; simpl; congruence. Qed.

Lemma integerString_nonempty t : (1 <= String.length (integerString t))%nat.
Proof.
  unfold integerString. destruct t as [|q|q]; simpl; try lia.
  assert (H := string_of_uint_nonempty _ (DecimalPos.Unsigned.to_uint_nonnil q)).
  destruct (NilEmpty.string_of_uint (Pos.to_uint q)); [contradiction|simpl; lia].
Qed.

(** X13.  The id of a file whose path has 99 or more letters and digits
    is longer than the 100 characters that [itemsSchema] allows for the
    primary key, whatever the time; [storeEmbedding] inserts the record
    all the same. *)
Theorem generateId_exceeds_schema (pluginMissing : string -> string)
  (p : string) (t : Z) (fileType : ItemType)
  (e : vector) (date : string) (items : list ItemDocType) :
  (99 <= String.length (keepAlphaNumeric p))%nat ->
  findOne (generateId p t) items = None ->
  itemsSchema (recordOf p t fileType e date) = false /\
  storeEmbedding pluginMissing (recordOf p t fileType e date) (Some items)
  = (Ok (recordOf p t fileType e date),
     Some (items ++ [recordOf p t fileType e date])).
Proof.
  intros Hlen Habsent. split.
  - unfold itemsSchema, recordOf, generateId. cbn [id].
    rewrite !length_append. cbn [String.length].
    pose proof (integerString_nonempty t). apply Nat.leb_gt. lia.
  - unfold storeEmbedding. cbn [id recordOf]. now rewrite Habsent.
Qed.

Lemma generateId_exceeds_schema_witness :
  let p := "/storage/emulated/0/Documents/projects/2024/reports/quarterly/finance/europe/summaries/final/version3/attachments/notes.txt" in
  itemsSchema (recordOf p 1700000000000 Text [] "2024-01-01") = false /\
  storeEmbedding missingPlugin (recordOf p 1700000000000 Text [] "2024-01-01")
    (Some [])
  = (Ok (recordOf p 1700000000000 Text [] "2024-01-01"),
     Some ([] ++ [recordOf p 1700000000000 Text [] "2024-01-01"])).
Proof.
  cbv zeta.
  apply (generateId_exceeds_schema missingPlugin _ 1700000000000 Text []
           "2024-01-01" []).
  - vm_compute. lia.
  - reflexivity.
Defined.

(** X14.  A file that is processed again at a later time gets a new id,
    so the second call of [storeEmbedding] inserts a second record and
    the first is not updated. *)
Theorem storeEmbedding_reprocessed (pluginMissing : string -> string)
  (p : string) (t t' : Z)
  (fileType fileType' : ItemType) (e e' : vector) (date date' : string)
  (items : list ItemDocType) :
  t <> t' ->
  findOne (generateId p t) items = None ->
  findOne (generateId p t') items = None ->
  let first := recordOf p t fileType e date in
  let second := recordOf p t' fileType' e' date' in
  snd (storeEmbedding pluginMissing second
         (snd (storeEmbedding pluginMissing first (Some items))))
  = Some (items ++ [first; second]).
Proof.
  intros Ht H1 H2. cbv zeta.
  rewrite (storeEmbedding_fresh pluginMissing (recordOf p t fileType e date)
             items H1).
  cbn [snd].
  assert (Hnew : findOne (generateId p t')
                   (items ++ [recordOf p t fileType e date]) = None).
  { unfold findOne in *. induction items as [|doc items IH]; simpl in *.
    - destruct (String.eqb_spec (generateId p t) (generateId p t')) as [E|_];
        [|reflexivity].
      apply generateId_inj in E as [_ E]. contradiction.
    - destruct (String.eqb (id doc) (generateId p t')); [discriminate|].
      destruct (String.eqb (id doc) (generateId p t)); [discriminate|].
      now apply IH. }
  rewrite (storeEmbedding_fresh pluginMissing (recordOf p t' fileType' e' date')
             _ Hnew).
  cbn [snd]. now rewrite <- app_assoc.
Qed.

Lemma storeEmbedding_reprocessed_witness :
  snd (storeEmbedding missingPlugin
         (recordOf "/notes/a.txt" 1700000000001 Text [] "2024-01-02")
         (snd (storeEmbedding missingPlugin
                 (recordOf "/notes/a.txt" 1700000000000 Text [] "2024-01-01")
                 (Some []))))
  = Some ([] ++ [recordOf "/notes/a.txt" 1700000000000 Text [] "2024-01-01";
                 recordOf "/notes/a.txt" 1700000000001 Text [] "2024-01-02"]).
Proof.
  apply (storeEmbedding_reprocessed missingPlugin "/notes/a.txt"
           1700000000000 1700000000001
           Text Text [] [] "2024-01-01" "2024-01-02" []).
  - lia.
  - reflexivity.
  - reflexivity.
Defined.

End IdProperties.

(* ================================================================== *)
(** * Invariants of the store *)
(* ================================================================== *)

Module StoreProperties.
Import DatabaseService StoreRef ExtraRef StoreClaims.

Local Open Scope string_scope.
Local Open Scope list_scope.

Lemma findOne_none wanted items :
  findOne wanted items = None <-> ~ In wanted (map id items).
Proof.
  unfold findOne. induction items as [|doc items IH]; simpl; [tauto|].
  destruct (String.eqb_spec (id doc) wanted) as [E|E].
  - split; [discriminate|]. intros H. exfalso. apply H. now left.
  - rewrite IH. tauto.
Qed.

Lemma NoDup_snoc {A : Type} (l : list A) (x : A) :
  NoDup l -> ~ In x l -> NoDup (l ++ [x]).
Proof.
  intros Hl Hx. apply NoDup_app; [assumption|repeat constructor; intros []|].
  intros a Ha [<-|[]]. contradiction.
Qed.

Section Store.

Variable pluginMissing : string -> string.

Local Abbreviation store := (storeEmbedding pluginMissing).

(** One call keeps the ids distinct and adds at most the id of its
    record. *)
Lemma storeEmbedding_ids data items :
  NoDup (map id items) ->
  exists items',
    snd (store data (Some items)) = Some items' /\
    NoDup (map id items') /\
    In (id data) (map id items') /\
    (forall i, In i (map id items') <-> In i (map id items) \/ i = id data) /\
    (List.length items' <= S (List.length items))%nat.
Proof.
  intros Hnd.
  destruct (findOne (id data) items) as [existing|] eqn:E.
  - rewrite (storeEmbedding_found pluginMissing _ _ _ E). cbn [snd].
    assert (Hin : In (id data) (map id items)).
    { destruct (in_dec string_dec (id data) (map id items)) as [H|H]; [exact H|].
      apply findOne_none in H. congruence. }
    exists items. repeat split; auto; try tauto. intros [H| ->]; assumption.
  - rewrite (storeEmbedding_fresh pluginMissing _ _ E). cbn [snd].
    apply findOne_none in E. exists (items ++ [data]).
    rewrite map_app, length_app. cbn [map List.length].
    split; [reflexivity|]. split; [now apply NoDup_snoc|].
    split; [apply in_or_app; right; now left|].
    split; [|lia].
    intros i. rewrite in_app_iff. simpl. intuition congruence.
Qed.

Lemma storeAll_ids records : forall items,
  NoDup (map id items) ->
  exists items',
    storeAll pluginMissing records (Some items) = Some items' /\
    NoDup (map id items') /\
    (forall i, In i (map id items')
               <-> In i (map id items) \/ In i (map id records)) /\
    (List.length items' <= List.length items + List.length records)%nat.
Proof.
  induction records as [|r records IH]; intros items Hnd; cbn [storeAll fold_left].
  - exists items. repeat split; auto; try tauto; try lia. now intros [H|[]].
  - destruct (storeEmbedding_ids r items Hnd) as (items1 & E1 & Hnd1 & _ & Hin1 & Hlen1).
    rewrite E1. destruct (IH items1 Hnd1) as (items' & E & Hnd' & Hin & Hlen).
    exists items'. unfold storeAll in E. rewrite E.
    split; [reflexivity|]. split; [assumption|]. split.
    + intros i. rewrite Hin, Hin1. simpl. intuition congruence.
    + simpl. lia.
Qed.

(** X15.  Whatever records are stored, in whatever order and however
    often, on a database that was just initialised: the ids of the
    documents stay pairwise distinct, they are the ids of the records, and
    there are no more documents than calls. *)
Theorem storeAll_distinct_ids (records : list ItemDocType) :
  exists items,
    storeAll pluginMissing records (initializeDatabase None) = Some items /\
    NoDup (map id items) /\
    (forall i, In i (map id items) <-> In i (map id records)) /\
    (List.length items <= List.length records)%nat.
Proof.
  destruct (storeAll_ids records [] (NoDup_nil _)) as (items & E & Hnd & Hin & Hlen).
  exists items. repeat split; auto.
  - intros H. apply Hin in H as [[]|H]. exact H.
  - intros H. apply Hin. now right.
Qed.

(** X16.  [storeEmbedding] touches no document but the one with the id of
    its record: a lookup under any other id finds what it found before. *)
Theorem storeEmbedding_other_ids (data : ItemDocType) (items : list ItemDocType)
  (other : string) :
  other <> id data ->
  findOne other (documents (snd (store data (Some items))))
  = findOne other items.
Proof.
  intros Hother.
  destruct (findOne (id data) items) as [existing|] eqn:E.
  - now rewrite (storeEmbedding_found pluginMissing _ _ _ E).
  - rewrite (storeEmbedding_fresh pluginMissing _ _ E). cbn [snd documents].
    unfold findOne. clear E. induction items as [|doc items IH]; simpl.
    + destruct (String.eqb_spec (id data) other) as [E'|_]; [congruence|reflexivity].
    + destruct (String.eqb (id doc) other); [reflexivity|exact IH].
Qed.

(** One call leaves the documents of the store as they are and adds at
    most its record at the end. *)
Lemma storeEmbedding_appends data items :
  exists added,
    snd (store data (Some items)) = Some (items ++ added) /\
    (added = [] \/ added = [data]).
Proof.
  destruct (findOne (id data) items) as [existing|] eqn:E.
  - rewrite (storeEmbedding_found pluginMissing _ _ _ E). exists [].
    cbn [snd]. rewrite app_nil_r. now split; [|left].
  - rewrite (storeEmbedding_fresh pluginMissing _ _ E). exists [data].
    now split; [|right].
Qed.

(** X17.  The store only grows at its end: whatever records are passed
    to [storeEmbedding], every document that was stored stays as it is,
    embedding and timestamp included, and the documents added are among
    the records passed, at most one for each call.  The embedding stored
    under an id is never replaced. *)
Theorem storeAll_append_only (records : list ItemDocType)
  (items : list ItemDocType) :
  exists added,
    storeAll pluginMissing records (Some items) = Some (items ++ added) /\
    Forall (fun doc => In doc records) added /\
    (List.length added <= List.length records)%nat.
Proof.
  revert items. induction records as [|r records IH]; intros items;
    cbn [storeAll fold_left].
  - exists []. rewrite app_nil_r. repeat split; [constructor|simpl; lia].
  - destruct (storeEmbedding_appends r items) as (added1 & E1 & Hadded1).
    rewrite E1. destruct (IH (items ++ added1)) as (added & E & Hall & Hlen).
    unfold storeAll in E. rewrite E. exists (added1 ++ added).
    rewrite app_assoc. split; [reflexivity|]. split.
    + apply Forall_app. split.
      * destruct Hadded1 as [-> | ->]; repeat constructor.
      * eapply Forall_impl; [|exact Hall]. intros doc Hdoc. now right.
    + rewrite length_app. destruct Hadded1 as [-> | ->]; simpl; lia.
Qed.

End Store.

Lemma storeEmbedding_other_ids_witness :
  findOne "doc_2"
    (documents (snd (storeEmbedding missingPlugin (sampleDoc [1%R] "2024-01-02")
                       (Some [sampleRecord "doc_2" [0%R]]))))
  = findOne "doc_2" [sampleRecord "doc_2" [0%R]].
Proof.
  apply (storeEmbedding_other_ids missingPlugin (sampleDoc [1%R] "2024-01-02")
           [sampleRecord "doc_2" [0%R]] "doc_2").
  discriminate.
Defined.

End StoreProperties.

(* ================================================================== *)
(** * The type of a file *)
(* ================================================================== *)

Module FileTypeProperties.
Import FileUtils FileService ExtraRef BatchRef ScanRef.

Local Open Scope string_scope.
Local Open Scope list_scope.

Lemma eqb_false a b :
  a <> b -> String.eqb a b = false /\ String.eqb b a = false.
Proof.
  intros H. split; apply String.eqb_neq; [assumption|]. intros E. now apply H.
Qed.

Local Ltac known_extension ext k :=
  destruct (String.eqb_spec ext k) as [->|?];
  [vm_compute; repeat split; discriminate|].

(** The table of MIME types and the lists of extensions of the fallback
    name the same extensions, with the same types. *)
Lemma table_agrees ext :
  match lookup ext mimeTypes with
  | Some m => m <> "" /\ mimeClass m <> None /\ extensionType ext = mimeClass m
  | None => extensionType ext = None
  end.
Proof.
  known_extension ext ".txt". known_extension ext ".md".
  known_extension ext ".rtf". known_extension ext ".jpg".
  known_extension ext ".jpeg". known_extension ext ".png".
  known_extension ext ".gif". known_extension ext ".webp".
  known_extension ext ".mp4". known_extension ext ".mov".
  known_extension ext ".avi". known_extension ext ".mkv".
  repeat match goal with
         | H : ext <> _ |- _ => destruct (eqb_false _ _ H) as [? ?]; clear H
         end.
  unfold extensionType, includes, mimeTypes. cbn [lookup existsb].
  repeat match goal with H : _ = false |- _ => rewrite H; clear H end.
  reflexivity.
Qed.

Section FileTypes.

Variable extname : string -> string.

Lemma determineFileType_by_table f :
  type f = None \/ type f = Some "" ->
  determineFileType extname f
  = match getMimeType extname (name f) with
    | Some m => mimeClass m
    | None => None
    end.
Proof.
  intros Htype. unfold determineFileType, getMimeType.
  fold (extensionType (toLowerCase (getFileExtension extname (name f)))).
  pose proof (table_agrees (toLowerCase (getFileExtension extname (name f)))) as H.
  replace (match type f with
           | Some t => if String.eqb t "" then _ else Some t
           | None => _
           end)
    with (lookup (toLowerCase (getFileExtension extname (name f))) mimeTypes)
    by (destruct Htype as [-> | ->]; reflexivity).
  cbv zeta.
  destruct (lookup _ mimeTypes) as [m|]; [|exact H].
  destruct H as (Hm & Hclass & Hext).
  apply String.eqb_neq in Hm. rewrite Hm. fold (mimeClass m).
  rewrite Hext. now destruct (mimeClass m).
Qed.

(** X18.  For a file without a declared type the table of MIME types
    decides alone: the type is the one that the MIME type of the
    extension stands for, and the file is unsupported exactly when the
    extension is not in the table.  The fallback to the lists of
    extensions never changes the outcome. *)
Theorem determineFileType_undeclared (f : FileObject) :
  type f = None \/ type f = Some "" ->
  determineFileType extname f
  = match getMimeType extname (name f) with
    | Some m => mimeClass m
    | None => None
    end /\
  (determineFileType extname f = None <-> getMimeType extname (name f) = None).
Proof.
  intros Htype. rewrite (determineFileType_by_table f Htype).
  split; [reflexivity|].
  unfold getMimeType.
  pose proof (table_agrees (toLowerCase (getFileExtension extname (name f)))) as H.
  cbv zeta. destruct (lookup _ mimeTypes) as [m|]; [|tauto].
  destruct H as (_ & Hclass & _). split; [contradiction|discriminate].
Qed.

(** X19.  A file whose extension is in the table is supported, whatever
    type was declared for it: when the declared type is not recognised,
    the extension decides. *)
Theorem determineFileType_known_extension (f : FileObject) :
  getMimeType extname (name f) <> None ->
  determineFileType extname f <> None.
Proof.
  unfold determineFileType, getMimeType. cbv zeta.
  fold (extensionType (toLowerCase (getFileExtension extname (name f)))).
  pose proof (table_agrees (toLowerCase (getFileExtension extname (name f)))) as H.
  destruct (lookup _ mimeTypes) as [m|]; [|contradiction].
  intros _. destruct H as (_ & Hclass & Hext). rewrite Hext.
  repeat match goal with
         | |- context [match ?x with _ => _ end] =>
             first [ destruct x eqn:? ; try discriminate; try assumption ]
         end.
Qed.

End FileTypes.

Lemma determineFileType_undeclared_witness :
  determineFileType sampleExtname (sampleFile "notes/Readme.MD")
  = match getMimeType sampleExtname (name (sampleFile "notes/Readme.MD")) with
    | Some m => mimeClass m
    | None => None
    end /\
  (determineFileType sampleExtname (sampleFile "notes/Readme.MD") = None
   <-> getMimeType sampleExtname (name (sampleFile "notes/Readme.MD")) = None).
Proof.
  apply (determineFileType_undeclared sampleExtname (sampleFile "notes/Readme.MD")).
  left. reflexivity.
Defined.

Lemma determineFileType_known_extension_witness :
  determineFileType sampleExtname
    {| uri := "clip.mkv"; type := Some "application/octet-stream";
       name := "clip.mkv"; size := None |}
  <> None.
Proof.
  apply (determineFileType_known_extension sampleExtname).
  vm_compute. discriminate.
Defined.

End FileTypeProperties.

(* ================================================================== *)
(** * Invariants of the folder scanner *)
(* ================================================================== *)

Module ScanProperties.
Import FileUtils FileService ScanRef ExtraRef.

Local Open Scope string_scope.
Local Open Scope list_scope.

Lemma prefix_refl s : String.prefix s s = true.
Proof.
  induction s as [|c s IH]; simpl; [reflexivity|].
  destruct (ascii_dec c c); [exact IH|contradiction].
Qed.

Lemma prefix_app a : forall b c,
  String.prefix a b = true -> String.prefix a (b ++ c) = true.
Proof.
  induction a as [|x a IH]; intros b c.
  - now destruct b, c.
  - destruct b as [|y b]; simpl; [discriminate|].
    destruct (ascii_dec x y); [apply IH|discriminate].
Qed.

Lemma prefix_joinPath root path itemName :
  String.prefix root path = true ->
  String.prefix root (joinPath path itemName) = true.
Proof.
  intros H. unfold joinPath. destruct (endsWith path "/"); now apply prefix_app.
Qed.

Lemma progressCalls_next n :
  progressCalls (S n)
  = if (S n mod 10 =? 0)%nat then progressCalls n ++ [S n] else progressCalls n.
Proof.
  unfold progressCalls.
  pose proof (Nat.div_mod_eq n 10) as Hn.
  pose proof (Nat.div_mod_eq (S n) 10) as HS.
  pose proof (Nat.mod_upper_bound n 10 ltac:(lia)) as Bn.
  pose proof (Nat.mod_upper_bound (S n) 10 ltac:(lia)) as BS.
  destruct (Nat.eqb_spec (S n mod 10) 0) as [E|E].
  - replace (S n / 10)%nat with (S (n / 10)) by lia.
    rewrite seq_S, map_app. cbn [map]. do 2 f_equal. lia.
  - f_equal. f_equal. lia.
Qed.

Section Scan.

Variable extname : string -> string.
Variable ios : bool.
Variable progressCallback : bool.

Local Abbreviation folder := (processFolder extname ios progressCallback).
Local Abbreviation visit := (visitFile extname ios progressCallback).
Local Abbreviation processItems := (ScanRef.processItems extname ios progressCallback).

(** A property of the state of the scan that no warning changes and that
    every visit of a file at or below the scanned folder keeps, is kept
    by the scan of a tree. *)
Section Invariant.

Variable root : string.
Variable I : Scan -> Prop.
Hypothesis I_warn : forall path st, I st -> I (warn path st).
Hypothesis I_visit : forall path itemName size st,
  String.prefix root path = true ->
  I st -> I (visit (joinPath path itemName) itemName size st).

Lemma processFolder_invariant d : forall path st,
  String.prefix root path = true -> I st -> I (folder path d st).
Proof.
  induction d as [message|entries IH] using Directory_induction;
    intros path st Hpath Hst.
  - now apply I_warn.
  - rewrite ScanClaims.processFolder_items.
    revert st Hst. induction IH as [|[itemName node] rest Hnode _ IHrest];
      intros st Hst; [exact Hst|].
    cbn [snd] in Hnode. cbn [ScanRef.processItems].
    destruct node as [size| |message|d'].
    + apply IHrest. now apply I_visit.
    + now apply IHrest.
    + now apply I_warn.
    + apply IHrest. apply Hnode; [now apply prefix_joinPath|exact Hst].
Qed.

End Invariant.

(** What the scan knows of its state at every moment. *)
Local Abbreviation counted := (fun st : Scan =>
  fileCount st = List.length (supportedFiles st) /\
  progress st = if progressCallback then progressCalls (fileCount st) else []).

Lemma counted_visit itemPath itemName size st :
  counted st -> counted (visit itemPath itemName size st).
Proof.
  intros [Hcount Hprogress]. unfold visitFile.
  destruct (determineFileType _ _); [|now split].
  cbv zeta. cbn [fileCount].
  destruct progressCallback; cbn [andb].
  - destruct (S (fileCount st) mod 10 =? 0)%nat eqn:E;
      cbn [report fileCount supportedFiles progress];
      rewrite length_app, Hprogress, progressCalls_next, E; cbn [List.length];
      split; try lia; reflexivity.
  - cbn [fileCount supportedFiles progress].
    rewrite length_app; cbn [List.length]; split; [lia|assumption].
Qed.

(** X20.  The progress callback of a scan is called at every tenth file
    found, with the count, and once more at the end with the number of
    files returned; without a callback nothing is called.  A scan that
    finds twenty files calls it with 10, 20 and 20. *)
Theorem scanFolderForFiles_progress (folderPath : string) (root : Directory) :
  let st := scanFolderForFiles extname ios folderPath root progressCallback in
  fileCount st = List.length (supportedFiles st) /\
  progress st
  = if progressCallback
    then progressCalls (List.length (supportedFiles st))
         ++ [List.length (supportedFiles st)]
    else [].
Proof.
  cbv zeta. unfold scanFolderForFiles.
  assert (H : counted (folder folderPath root emptyScan)).
  { apply (processFolder_invariant folderPath counted).
    - intros path st [H1 H2]. now split.
    - intros path itemName size st _. apply counted_visit.
    - apply prefix_refl.
    - split; [reflexivity|now destruct progressCallback]. }
  destruct H as [Hcount Hprogress]. cbv zeta.
  destruct progressCallback; cbn [report fileCount supportedFiles progress].
  - split; [assumption|]. now rewrite Hprogress, Hcount.
  - now split.
Qed.

(** What holds of every file object that the scan returns. *)
Local Abbreviation listed := (fun (folderPath : string) (f : FileObject) =>
  determineFileType extname f <> None /\
  type f = getMimeType extname (name f) /\
  type f <> None /\
  locatedBelow ios folderPath f).

Lemma listed_visit folderPath path itemName size st :
  String.prefix folderPath path = true ->
  Forall (listed folderPath) (supportedFiles st) ->
  Forall (listed folderPath)
         (supportedFiles (visit (joinPath path itemName) itemName size st)).
Proof.
  intros Hpath Hall. unfold visitFile. cbv zeta.
  destruct (determineFileType _ _) as [t|] eqn:E; [|exact Hall].
  assert (Hnew : Forall (listed folderPath)
            (supportedFiles st
             ++ [{| uri := if ios then "file://" ++ joinPath path itemName
                           else joinPath path itemName;
                    type := getMimeType extname itemName;
                    name := itemName; size := size |}])).
  { apply Forall_app. split; [exact Hall|]. constructor; [|constructor].
    split; [congruence|]. split; [reflexivity|]. split.
    - cbn [type]. intros Hnone.
      pose proof (FileTypeProperties.determineFileType_by_table extname
                    {| uri := if ios then "file://" ++ joinPath path itemName
                              else joinPath path itemName;
                       type := getMimeType extname itemName;
                       name := itemName; size := size |}
                    (or_introl Hnone)) as H.
      rewrite H in E. cbn [name] in E. rewrite Hnone in E. discriminate E.
    - exists path. split; [exact Hpath|reflexivity]. }
  destruct (progressCallback && _); exact Hnew.
Qed.

(** X21.  Every file object that the scan returns is of a supported
    type, carries the MIME type of its extension, and has the [uri] of an
    entry of that name in a folder at or below the scanned folder, with
    the scheme [file://] before it on iOS. *)
Theorem scanFolderForFiles_listed (folderPath : string) (root : Directory) :
  Forall (fun f =>
            determineFileType extname f <> None /\
            type f = getMimeType extname (name f) /\
            type f <> None /\
            locatedBelow ios folderPath f)
         (supportedFiles
            (scanFolderForFiles extname ios folderPath root progressCallback)).
Proof.
  unfold scanFolderForFiles. cbv zeta.
  assert (H : Forall (listed folderPath)
                (supportedFiles (folder folderPath root emptyScan))).
  { apply (processFolder_invariant folderPath
             (fun st => Forall (listed folderPath) (supportedFiles st))).
    - intros path st H. exact H.
    - intros path itemName size st Hpath. now apply listed_visit.
    - apply prefix_refl.
    - constructor. }
  destruct progressCallback; exact H.
Qed.

End Scan.

End ScanProperties.

(* ================================================================== *)
(** * The handlers of the component *)
(* ================================================================== *)

Module AppProperties.
Import ModelService EmbeddingService DatabaseService FileService SearchService.
Import App BatchRef ExtraRef EmbedderRef.

Local Open Scope string_scope.
Local Open Scope list_scope.

(** What a progress update leaves as it is. *)
Lemma folderProgress_keeps calls : forall ui,
  alerts (fold_left folderProgress calls ui) = alerts ui /\
  results (fold_left folderProgress calls ui) = results ui /\
  isLoading (fold_left folderProgress calls ui) = isLoading ui.
Proof.
  induction calls as [|[current total] calls IH]; intros ui; [now repeat split|].
  cbn [fold_left]. destruct (IH (folderProgress ui (current, total))) as (H1 & H2 & H3).
  rewrite H1, H2, H3. now repeat split.
Qed.

Section Handlers.

Variable W : Type.
Variable processFile : FileObject -> M W bool.

Local Abbreviation outcomes := (BatchRef.outcomes processFile).

(** The loop of [handleFileSelect] over files that are all processed. *)
Lemma selectLoop_processed total pre : forall rest i ui w,
  Forall (fun outcome => isOk outcome = true) (fst (outcomes pre w)) ->
  selectLoop processFile total i (pre ++ rest) ui w
  = selectLoop processFile total (i + List.length pre) rest
      (fold_left folderProgress
         (map (fun k => (k, total)) (seq (i + 1) (List.length pre))) ui)
      (snd (outcomes pre w)).
Proof.
  induction pre as [|f pre IH]; intros rest i ui w Hok.
  - cbn [app List.length seq map fold_left BatchRef.outcomes snd].
    now rewrite Nat.add_0_r.
  - cbn [app selectLoop List.length seq map fold_left BatchRef.outcomes] in *.
    destruct (processFile f w) as [outcome w1].
    specialize (IH rest (S i)). 
    destruct (BatchRef.outcomes processFile pre w1) as [others w2] eqn:E.
    cbn [fst snd] in *. inversion Hok as [|? ? Hf Hothers]; subst.
    destruct outcome as [b|e]; [|discriminate Hf].
    rewrite IH by (rewrite E; exact Hothers). rewrite E. cbn [snd].
    replace (S i + List.length pre)%nat with (i + S (List.length pre))%nat by lia.
    replace (S i + 1)%nat with (S (i + 1)) by lia. reflexivity.
Qed.

(** X22.  [handleFileSelect] stops at the first file that cannot be
    processed: the files after it are not touched, one alert titled
    [Error] carries the message, and the loading state is cleared. *)
Theorem handleFileSelect_stops (pre post : list FileObject) (f : FileObject)
  (ui : AppState) (w : W) (e : string) :
  Forall (fun outcome => isOk outcome = true) (fst (outcomes pre w)) ->
  fst (processFile f (snd (outcomes pre w))) = Err e ->
  let ui' := fst (handleFileSelect processFile (pre ++ f :: post) ui w) in
  snd (handleFileSelect processFile (pre ++ f :: post) ui w)
  = snd (processFile f (snd (outcomes pre w))) /\
  alerts ui' = alerts ui ++ [("Error", ("Failed to process files: " ++ e)%string)] /\
  results ui' = results ui /\
  isLoading ui' = false /\
  processingProgress ui' = None /\
  loadingMessage ui'
  = ("Processing file " ++ count (List.length pre + 1) ++ "/"
     ++ count (List.length (pre ++ f :: post)) ++ "...")%string.
Proof.
  intros Hok Hfail. cbv zeta. unfold handleFileSelect.
  destruct (pre ++ f :: post) as [|f0 files0] eqn:Efiles;
    [now destruct pre|].
  rewrite <- Efiles. cbv zeta.
  rewrite (selectLoop_processed _ pre (f :: post) 0 _ w Hok).
  cbn [selectLoop].
  destruct (processFile f (snd (outcomes pre w))) as [outcome w1].
  cbn [fst snd] in *. subst outcome.
  match goal with
  | |- context [fold_left folderProgress ?calls ?ui0] =>
      destruct (folderProgress_keeps calls ui0) as (Ha & Hr & Hl);
      set (ui1 := fold_left folderProgress calls ui0) in *
  end.
  cbn [fst snd alert setIsLoading setProcessingProgress setLoadingMessage
       alerts results isLoading processingProgress loadingMessage] in *.
  rewrite Ha, Hr. now repeat split.
Qed.

(** X23.  [handleFolderScan] processes every file of a folder and then
    announces success, whatever happened: the alert is titled [Success]
    and counts all files as processed and indexed, also those on which
    [processFile] threw. *)
Theorem handleFolderScan_announces_success (files : list FileObject)
  (folderPath : string) (ui : AppState) (w : W) :
  files <> [] ->
  let ui' := fst (handleFolderScan processFile files folderPath ui w) in
  snd (handleFolderScan processFile files folderPath ui w) = snd (outcomes files w) /\
  alerts ui'
  = alerts ui
    ++ [("Success",
         (count (List.length files)
          ++ " files from folder processed and indexed successfully")%string)] /\
  results ui' = results ui /\
  isLoading ui' = false /\
  processingProgress ui' = None.
Proof.
  intros Hfiles. cbv zeta. unfold handleFolderScan, processFolderFiles.
  destruct files as [|f0 files0] eqn:Efiles; [contradiction|].
  rewrite <- Efiles. cbv zeta.
  pose proof (BatchClaims.processLoop_spec W processFile true (List.length files)
                files {| FileService.results := []; processedCount := 0; calls := [] |}
                w) as H.
  destruct (processLoop processFile true (List.length files) files _ w) as [batch w1].
  destruct H as (_ & _ & _ & Hw).
  match goal with
  | |- context [fold_left folderProgress ?calls ?ui0] =>
      destruct (folderProgress_keeps calls ui0) as (Ha & Hr & Hl);
      set (ui1 := fold_left folderProgress calls ui0) in *
  end.
  cbn [fst snd alert setIsLoading setProcessingProgress setLoadingMessage
       alerts results isLoading processingProgress loadingMessage] in *.
  rewrite Ha, Hr. now repeat split.
Qed.

End Handlers.

Lemma handleFileSelect_stops_witness :
  let files := [sampleFile "a.txt"; sampleFile "data.bin"; sampleFile "b.txt"] in
  snd (handleFileSelect sampleProcessFile files idle 0%nat) = 1%nat /\
  alerts (fst (handleFileSelect sampleProcessFile files idle 0%nat))
  = [("Error", "Failed to process files: Unsupported file type: data.bin")].
Proof.
  cbv zeta.
  destruct (handleFileSelect_stops nat sampleProcessFile
              [sampleFile "a.txt"] [sampleFile "b.txt"] (sampleFile "data.bin")
              idle 0%nat "Unsupported file type: data.bin")
    as (Hw & Ha & _).
  - repeat constructor.
  - reflexivity.
  - split; [exact Hw|exact Ha].
Defined.

Lemma handleFolderScan_announces_success_witness :
  let files := [sampleFile "data.bin"; sampleFile "data.bin"] in
  alerts (fst (handleFolderScan sampleProcessFile files "/folder" idle 0%nat))
  = [("Success", "2 files from folder processed and indexed successfully")] /\
  Forall (fun outcome => isOk outcome = false)
         (fst (BatchRef.outcomes sampleProcessFile files 0%nat)).
Proof.
  cbv zeta. split; [|repeat constructor].
  destruct (handleFolderScan_announces_success nat sampleProcessFile
              [sampleFile "data.bin"; sampleFile "data.bin"] "/folder" idle 0%nat)
    as (_ & Ha & _); [discriminate|exact Ha].
Defined.

End AppProperties.

(* ================================================================== *)
(** * Searching from the component *)
(* ================================================================== *)

Module SearchProperties.
Import ModelService EmbeddingService DatabaseService SearchService.
Import App StoreRef ExtraRef EmbedderRef SearchClaims.

Local Open Scope string_scope.
Local Open Scope list_scope.

Lemma searchFiles_cases numberToString sessions query limit db :
  searchFiles numberToString sessions query limit db
  = match textSession sessions, db with
    | None, _ => Err "Failed to search files: Text model not initialized"
    | Some _, None => Err "Failed to search files: Database not initialized"
    | Some _, Some items =>
        Ok (map (withScore defaultThreshold)
              (vectorFind items
                 (generateDeterministicEmbedding numberToString query EMBEDDING_DIM)
                 defaultThreshold limit))
    end.
Proof.
  unfold searchFiles, getTextEmbedding, searchByVector.
  destruct (textSession sessions); [|reflexivity]. now destruct db.
Qed.

(** X24.  A search for a query that is not blank, made while the text
    model or the database is not initialised, never reaches the engine:
    it ends with the loading flag cleared and the results emptied, and
    one alert names the cause behind the prefixes of [handleSearch] and
    [searchFiles], the text model first. *)
Theorem handleSearch_uninitialised (numberToString : number -> text)
  (sessions : Sessions) (db : Database) (query : text) (ui : AppState) :
  trim query <> [] ->
  textSession sessions = None \/ db = None ->
  let ui' := handleSearch numberToString sessions db query ui in
  isLoading ui' = false /\
  loadingMessage ui' = "Searching..." /\
  results ui' = [] /\
  alerts ui'
  = alerts ui
    ++ [("Search Failed",
         match textSession sessions with
         | None =>
             "Error searching files: Failed to search files: Text model not initialized"
         | Some _ =>
             "Error searching files: Failed to search files: Database not initialized"
         end)].
Proof.
  intros Hquery Hnone. cbv zeta. unfold handleSearch.
  destruct (trim query) as [|c rest]; [contradiction|]. cbn [List.length Nat.eqb].
  rewrite searchFiles_cases.
  destruct (textSession sessions) as [session|].
  - destruct Hnone as [Hnone| ->]; [discriminate|]. now repeat split.
  - now repeat split.
Qed.

Lemma handleSearch_uninitialised_witness :
  let ui' := handleSearch integerToString readySessions None (chars "cats") idle in
  isLoading ui' = false /\
  loadingMessage ui' = "Searching..." /\
  results ui' = [] /\
  alerts ui'
  = alerts idle
    ++ [("Search Failed",
         "Error searching files: Failed to search files: Database not initialized")].
Proof.
  cbv zeta.
  apply (handleSearch_uninitialised integerToString readySessions None
           (chars "cats") idle).
  - vm_compute. discriminate.
  - now right.
Defined.

End SearchProperties.

(* ================================================================== *)
(** * The information shown for a file *)
(* ================================================================== *)

Module FileInfoProperties.
Import FileUtils FileInfoUtils ExtraRef ScanRef.

Local Open Scope string_scope.
Local Open Scope list_scope.

Lemma previewOf_length content : (List.length (previewOf content) <= 303)%nat.
Proof.
  unfold previewOf. rewrite length_app, length_firstn.
  destruct (300 <? List.length content)%nat;
    [change (List.length (chars "...")) with 3%nat|cbn [List.length]]; lia.
Qed.

Lemma previewOf_short content :
  (List.length content <= 300)%nat -> previewOf content = content.
Proof.
  intros H. unfold previewOf.
  destruct (Nat.ltb_spec 300 (List.length content)); [lia|].
  rewrite app_nil_r. now apply firstn_all2.
Qed.

Section GetFileInfo.

Variable W : Type.
Variable extname : string -> string.
Variable basename : string -> string.
Variable getInfoAsync : string -> M W FileStats.
Variable readAsStringAsync : string -> M W text.
Variable getThumbnailAsync : string -> Z -> M W string.

Local Abbreviation info :=
  (getFileInfo extname basename getInfoAsync readAsStringAsync getThumbnailAsync).

(** X25.  [getFileInfo] never rejects.  It resolves to an object with
    the path and its base name that either carries the one error message
    and nothing else, or carries no error; a preview has at most 303
    characters, and no duration is ever set.  A file whose information
    cannot be obtained, or that does not exist, gives the object with the
    error. *)
Theorem getFileInfo_resolves (filePath : string) (w : W) :
  exists (i : FileInfo) (w' : W),
    info filePath w = (Ok i, w') /\
    name i = basename filePath /\
    path i = filePath /\
    duration i = None /\
    (i = unreadable basename filePath \/ error i = None) /\
    (forall p, preview i = Some p -> (List.length p <= 303)%nat) /\
    (match fst (getInfoAsync filePath w) with
     | Ok fileStats => fileExists fileStats = false
     | Err _ => True
     end -> i = unreadable basename filePath).
Proof.
  unfold getFileInfo.
  destruct (getInfoAsync filePath w) as [[fileStats|e] w1]; cbn [fst].
  2:{ eexists _, _. split; [reflexivity|]. repeat split; auto; discriminate. }
  destruct (fileExists fileStats); cbn [negb].
  2:{ eexists _, _. split; [reflexivity|]. repeat split; auto; discriminate. }
  cbv zeta.
  destruct (existsb _ [".txt"; ".md"; ".rtf"]).
  { destruct (readAsStringAsync filePath w1) as [[content|e] w2].
    - eexists _, _. split; [reflexivity|]. cbn.
      repeat split; auto; try discriminate.
      intros p [= <-]. apply previewOf_length.
    - eexists _, _. split; [reflexivity|]. repeat split; auto; discriminate. }
  destruct (existsb _ [".jpg"; ".jpeg"; ".png"; ".gif"; ".webp"]).
  { eexists _, _. split; [reflexivity|]. cbn. repeat split; auto; discriminate. }
  destruct (existsb _ [".mp4"; ".mov"; ".avi"; ".mkv"]).
  { destruct (getThumbnailAsync filePath 1000%Z w1) as [[uri|e] w2];
      eexists _, _; (split; [reflexivity|]); cbn; repeat split; auto; discriminate. }
  eexists _, _. split; [reflexivity|]. cbn. repeat split; auto; discriminate.
Qed.

End GetFileInfo.

(** X26.  The preview of a text file that [getFileInfo] can read is its
    content when that has at most 300 characters, and otherwise its first
    300 characters followed by three dots. *)
Theorem getFileInfo_preview (W : Type) (extname basename : string -> string)
  (getInfoAsync : string -> M W FileStats)
  (readAsStringAsync : string -> M W text)
  (getThumbnailAsync : string -> Z -> M W string)
  (filePath : string) (w w1 w2 : W) (fileStats : FileStats) (content : text) :
  getInfoAsync filePath w = (Ok fileStats, w1) ->
  fileExists fileStats = true ->
  In (toLowerCase (extname (basename filePath))) [".txt"; ".md"; ".rtf"] ->
  readAsStringAsync filePath w1 = (Ok content, w2) ->
  exists i,
    getFileInfo extname basename getInfoAsync readAsStringAsync getThumbnailAsync
      filePath w = (Ok i, w2) /\
    error i = None /\
    preview i
    = Some (if (List.length content <=? 300)%nat then content
            else firstn 300 content ++ chars "...").
Proof.
  intros Hinfo Hexists Hext Hread. unfold getFileInfo.
  rewrite Hinfo, Hexists. cbn [negb]. cbv zeta. unfold getFileExtension.
  assert (E : existsb (String.eqb (toLowerCase (extname (basename filePath))))
                [".txt"; ".md"; ".rtf"] = true).
  { apply existsb_exists. eexists. split; [exact Hext|apply String.eqb_refl]. }
  rewrite E, Hread. eexists. split; [reflexivity|]. split; [reflexivity|].
  cbn [preview]. f_equal.
  destruct (Nat.leb_spec (List.length content) 300) as [H|H].
  - now apply previewOf_short.
  - unfold previewOf. apply Nat.ltb_lt in H. now rewrite H.
Qed.

Lemma getFileInfo_preview_witness :
  exists i,
    getFileInfo sampleExtname (fun p => p) sampleInfo sampleContent
      (fun _ _ w => (Err "no thumbnail", w)) "/notes/long.txt" tt = (Ok i, tt) /\
    error i = None /\
    preview i
    = Some (if (List.length (repeat "x"%char 400) <=? 300)%nat
            then repeat "x"%char 400
            else firstn 300 (repeat "x"%char 400) ++ chars "...").
Proof.
  apply (getFileInfo_preview unit sampleExtname (fun p => p) sampleInfo sampleContent
           (fun _ _ w => (Err "no thumbnail", w)) "/notes/long.txt" tt tt tt
           {| fileExists := true; statSize := Some 400%Z;
              modificationTime := Some 1700000000%Z |}
           (repeat "x"%char 400)).
  - reflexivity.
  - reflexivity.
  - vm_compute. tauto.
  - reflexivity.
Defined.

End FileInfoProperties.

(* ================================================================== *)
(** * Text files without a text model *)
(* ================================================================== *)

Module TextProperties.
Import EmbeddingUtils ModelService EmbeddingService ExtraRef EmbedderRef.

Local Open Scope string_scope.
Local Open Scope list_scope.

Section Text.

Variable W : Type.
Variable readAsStringAsync : string -> M W text.
Variable numberToString : number -> text.
Variable sessions : Sessions.

(** Without a text session the loop ends at the first chunk that is not
    blank; blank chunks are passed over without a look at the session. *)
Lemma embedChunks_without_model chunks : forall embeddings,
  textSession sessions = None ->
  embedChunks numberToString sessions chunks embeddings
  = if forallb blank chunks then Ok embeddings
    else Err "Text model not initialized".
Proof.
  intros embeddings Hnone. revert embeddings.
  induction chunks as [|chunk rest IH]; intros embeddings; [reflexivity|].
  cbn [embedChunks forallb]. unfold blank at 1.
  destruct (List.length (trim chunk)) as [|n]; cbn [Nat.ltb Nat.leb Nat.eqb andb].
  - apply IH.
  - unfold getTextEmbedding. now rewrite Hnone.
Qed.

(** X27.  While the text model is not initialised, [processTextFile]
    fails on a file exactly when one of the chunks of its content is not
    blank, with the message of the model behind the prefix of the
    function; a file of blank chunks only gives a result without an
    embedding.  In both cases the call returns. *)
Theorem processTextFile_without_model (filePath : string) (w w' : W)
  (content : text) :
  textSession sessions = None ->
  readAsStringAsync filePath w = (Ok content, w') ->
  exists chunks,
    splitTextIntoChunks content defaultMaxChunkLength = Some chunks /\
    processTextFile readAsStringAsync numberToString sessions filePath w
    = Some (if forallb blank chunks then Ok {| embedding := None |}
            else Err "Failed to process text file: Text model not initialized",
            w').
Proof.
  intros Hnone Hread.
  destruct (ChunkerFacts.splitTextIntoChunks_returns content defaultMaxChunkLength)
    as (chunks & E & _); [unfold defaultMaxChunkLength; lia|].
  exists chunks. split; [exact E|].
  unfold processTextFile. rewrite Hread, E.
  rewrite (embedChunks_without_model chunks [] Hnone).
  now destruct (forallb blank chunks).
Qed.

End Text.

Lemma processTextFile_without_model_witness :
  exists chunks,
    splitTextIntoChunks (chars "hello world") defaultMaxChunkLength = Some chunks /\
    processTextFile sampleRead integerToString noSessions "/notes/a.txt" tt
    = Some (if forallb blank chunks then Ok {| embedding := None |}
            else Err "Failed to process text file: Text model not initialized",
            tt).
Proof.
  apply (processTextFile_without_model unit sampleRead integerToString noSessions
           "/notes/a.txt" tt tt (chars "hello world")); reflexivity.
Defined.

End TextProperties.
